(** * VEX statement derivation and document identity (pkg/vex/vex.go)

    A shallow embedding of the package [vex] of wolfictl: the two
    statement builders (secfixes and advisories), the reconciler
    [statementsFromConfiguration], the SBOM product extractor
    [extractSBOMPurls], the document identity [generateDocumentID] and
    the merge driver [FromPackageConfiguration].

    Go values are modelled as follows.
    - [string] is a sequence of bytes: Rocq's [string]; [[]byte] is
      [list byte]; [[]byte(s)] is [list_byte_of_string].
    - [map[string]T] is [gmap string T]; [map[string]struct{}] is
      [gset string].  [for k, v := range m] visits every entry once, in an
      order the runtime chooses: the order is a parameter of the model.
    - a result pair [(T, error)] is a Rocq pair whose second component is
      [option error], [None] being Go's [nil] error.
    - a [*time.Time] is [option Time], [None] being the nil pointer.
    - a [*build.Configuration] of the batch is a loaded record. *)

From Stdlib Require Import ZArith Ascii String List Strings.Byte.
From stdpp Require Import gmap strings list sorting.

(** ** Errors

    A Go [error] value is either created by a collaborator or wraps another
    error with a context: [fmt.Errorf("<context>: %w", cause)]. *)

Inductive error : Type :=
| ExternalError (msg : string)
| Errorf (context : string) (cause : error).

(** ** Bytes, hexadecimal text and SHA-256 (crypto/sha256, fmt "%x") *)

Definition bytes : Type := list Byte.byte.

#[global] Instance byte_eq_dec : EqDecision Byte.byte := Byte.byte_eq_dec.

Definition byte_of_Z (z : Z) : Byte.byte :=
  match Byte.of_N (Z.to_N (z mod 256)%Z) with
  | Some b => b
  | None => Byte.x00
  end.

Definition Z_of_byte (b : Byte.byte) : Z := Z.of_N (Byte.to_N b).

Module Sha256.

#[local] Open Scope Z_scope.

Definition w32 (x : Z) : Z := x mod 2 ^ 32.
Definition add32 (x y : Z) : Z := w32 (x + y).
Definition rotr (n x : Z) : Z :=
  Z.lor (Z.shiftr x n) (w32 (Z.shiftl x (32 - n))).
Definition shr (n x : Z) : Z := Z.shiftr x n.
Definition not32 (x : Z) : Z := Z.lxor x 0xffffffff.

Definition Ch (x y z : Z) : Z := Z.lxor (Z.land x y) (Z.land (not32 x) z).
Definition Maj (x y z : Z) : Z :=
  Z.lxor (Z.lxor (Z.land x y) (Z.land x z)) (Z.land y z).
Definition Sigma0 (x : Z) : Z :=
  Z.lxor (Z.lxor (rotr 2 x) (rotr 13 x)) (rotr 22 x).
Definition Sigma1 (x : Z) : Z :=
  Z.lxor (Z.lxor (rotr 6 x) (rotr 11 x)) (rotr 25 x).
Definition sigma0 (x : Z) : Z :=
  Z.lxor (Z.lxor (rotr 7 x) (rotr 18 x)) (shr 3 x).
Definition sigma1 (x : Z) : Z :=
  Z.lxor (Z.lxor (rotr 17 x) (rotr 19 x)) (shr 10 x).

(** The round constants are the first 32 bits of the fractional parts of
    the cube roots of the first 64 primes; the initial state is the same for
    the square roots of the first 8 (FIPS 180-4, 4.2.2 and 5.3.3). *)
Definition is_prime (n : Z) : bool :=
  forallb (fun d => negb (n mod d =? 0)) (seqZ 2 (n - 2)).

Definition primes : list Z := List.filter is_prime (seqZ 2 310).

Fixpoint cube_root_bits (k : nat) (n r : Z) : Z :=
  match k with
  | O => r
  | S k' =>
      let r' := r + 2 ^ Z.of_nat k' in
      if r' * r' * r' <=? n then cube_root_bits k' n r'
      else cube_root_bits k' n r
  end.

Definition cube_root (n : Z) : Z := cube_root_bits 40 n 0.

Definition K : list Z :=
  Eval vm_compute in map (fun p => w32 (cube_root (p * 2 ^ 96))) primes.

Definition init : list Z :=
  Eval vm_compute in map (fun p => w32 (Z.sqrt (p * 2 ^ 64))) (take 8 primes).

(** Padding: a 1 bit, zeros up to 56 mod 64 bytes, the bit length on 64
    bits, big endian. *)
Fixpoint be_bytes (n : nat) (x : Z) : list Z :=
  match n with
  | O => []
  | S n' => (Z.shiftr x (8 * Z.of_nat n')) mod 256 :: be_bytes n' x
  end.

Definition pad (msg : list Z) : list Z :=
  let len := Z.of_nat (length msg) in
  let zeros := Z.to_nat ((55 - len) mod 64) in
  msg ++ 0x80%Z :: replicate zeros 0%Z ++ be_bytes 8 (8 * len).

Fixpoint be_words (fuel : nat) (bs : list Z) : list Z :=
  match fuel, bs with
  | S fuel', b0 :: b1 :: b2 :: b3 :: rest =>
      (b0 * 2 ^ 24 + b1 * 2 ^ 16 + b2 * 2 ^ 8 + b3)%Z :: be_words fuel' rest
  | _, _ => []
  end.

(** The message schedule, kept newest word first while it is extended. *)
Fixpoint extend (n : nat) (rev_w : list Z) : list Z :=
  match n with
  | O => rev_w
  | S n' =>
      let w2 := nth 1 rev_w 0%Z in
      let w7 := nth 6 rev_w 0%Z in
      let w15 := nth 14 rev_w 0%Z in
      let w16 := nth 15 rev_w 0%Z in
      extend n'
        (add32 (add32 (sigma1 w2) w7) (add32 (sigma0 w15) w16) :: rev_w)
  end.

Definition schedule (block : list Z) : list Z :=
  rev (extend 48 (rev block)).

Definition round (st : list Z) (kw : Z * Z) : list Z :=
  match st with
  | [a; b; c; d; e; f; g; h] =>
      let t1 :=
        add32 (add32 (add32 h (Sigma1 e)) (Ch e f g))
              (add32 (fst kw) (snd kw)) in
      let t2 := add32 (Sigma0 a) (Maj a b c) in
      [add32 t1 t2; a; b; c; add32 d t1; e; f; g]
  | _ => st
  end.

Definition compress (st : list Z) (block : list Z) : list Z :=
  zip_with add32 st (fold_left round (zip K (schedule block)) st).

Fixpoint blocks (fuel : nat) (ws : list Z) (st : list Z) : list Z :=
  match fuel with
  | O => st
  | S fuel' =>
      match ws with
      | [] => st
      | _ => blocks fuel' (drop 16 ws) (compress st (take 16 ws))
      end
  end.

Definition sum256 (data : bytes) : bytes :=
  let padded := pad (map Z_of_byte data) in
  let ws := be_words (length padded) padded in
  let st := blocks (length ws) ws init in
  map byte_of_Z (concat (map (be_bytes 4) st)).

(** The streaming interface used by the code: [New], [Write], [Sum].
    The state is the data written so far.  [Write] never fails: the
    error it returns is always nil. *)
Record digest : Type := { written : bytes }.

Definition New : digest := {| written := [] |}.

Definition Write (h : digest) (p : bytes) : digest * (nat * option error) :=
  ({| written := written h ++ p |}, (length p, None)).

Definition Sum (h : digest) (b : bytes) : bytes := b ++ sum256 (written h).

End Sha256.

Definition hex_digit (n : Z) : ascii :=
  ascii_of_N (Z.to_N (if n <? 10 then 48 + n else 87 + n)%Z).

(** [fmt.Sprintf("%x", b)] for a byte slice [b]: two lowercase digits per
    byte. *)
Fixpoint hex (b : bytes) : string :=
  match b with
  | [] => EmptyString
  | x :: rest =>
      String (hex_digit (Z_of_byte x / 16)%Z)
        (String (hex_digit (Z_of_byte x mod 16)%Z) (hex rest))
  end.

(** ** Strings: [strings.Join] and [sort.Strings] *)

Fixpoint Join (elems : list string) (sep : string) : string :=
  match elems with
  | [] => EmptyString
  | [x] => x
  | x :: rest => String.append x (String.append sep (Join rest sep))
  end.

(** Go compares strings byte by byte; [sort.Strings] sorts in increasing
    order. *)
Definition string_le (a b : string) : Prop := String.leb a b = true.

#[global] Instance string_le_dec : RelDecision string_le.
Proof. intros a b. unfold string_le. apply _. Defined.

Definition sort_Strings (x : list string) : list string :=
  merge_sort string_le x.

(** ** The data model *)

Definition Time : Type := Z.

(** Package chainguard.dev/vex/pkg/vex: [Status] and [Justification] are
    string types; the fields of [Statement] that this package never sets
    keep their zero value and are left out. *)
Module vex.

Definition StatusNotAffected : string := "not_affected".
Definition StatusAffected : string := "affected".
Definition StatusFixed : string := "fixed".
Definition StatusUnderInvestigation : string := "under_investigation".

Record Statement : Type := mkStatement {
  Vulnerability : string;
  Status : string;
  Justification : string;
  ActionStatement : string;
  ImpactStatement : string;
  Products : list string;
  Timestamp : option Time
}.

#[global] Instance Statement_eq_dec : EqDecision Statement.
Proof. solve_decision. Defined.

Record VEX : Type := mkVEX {
  doc_ID : string;
  doc_Author : string;
  doc_AuthorRole : string;
  doc_Timestamp : option Time;
  doc_Statements : list Statement
}.

(** [vex.New()]: a document without statements, stamped with the current
    time.  The other metadata defaults of the library are never read by
    this package and are left empty. *)
Definition New (now : Time) : VEX :=
  {| doc_ID := ""; doc_Author := ""; doc_AuthorRole := "";
     doc_Timestamp := Some now; doc_Statements := [] |}.

End vex.

(** Package chainguard.dev/melange/pkg/build, as far as this package reads
    it. *)
Module build.

Record AdvisoryContent : Type := mkAdvisoryContent {
  Timestamp : Time;
  Status : string;
  Justification : string;
  ImpactStatement : string;
  ActionStatement : string
}.

Abbreviation Secfixes := (gmap string (list string)).
Abbreviation Advisories := (gmap string (list AdvisoryContent)).

Record Package : Type := mkPackage {
  Name : string;
  Version : string;
  Epoch : Z
}.

Record Configuration : Type := mkConfiguration {
  Package_ : Package;
  Secfixes_ : Secfixes;
  Advisories_ : Advisories
}.

End build.

Module ctl.

Record MergeOptions : Type := mkMergeOptions {
  DocumentID : string;
  Author : string;
  AuthorRole : string
}.

End ctl.

Module spdx.

Record ExternalRef : Type := mkExternalRef {
  Category : string;
  Locator : string;
  Type_ : string
}.

Record Package : Type := mkPackage {
  ExternalRefs : list ExternalRef
}.

Record Document : Type := mkDocument {
  Packages : list Package
}.

End spdx.

Module purl.

Record PackageURL : Type := mkPackageURL {
  Type_ : string;
  Namespace : string;
  Name : string;
  Version : string;
  Subpath : string
}.

End purl.

Record Config : Type := mkConfig {
  Distro : string;
  Author : string;
  AuthorRole : string
}.

(** ** Instances of the collaborators

    One concrete choice for each collaborator, used to run the code on
    examples. *)

(** A map walked in the order of [map_to_list]. *)
Definition rangeListed (V : Type) (m : gmap string V) : list (string * V) :=
  map_to_list m.

(** A statement sort: by vulnerability ID, then by timestamp, a statement
    without timestamp taking the document's. *)
Definition statementTime (documentTimestamp : Time) (s : vex.Statement)
    : Time :=
  match vex.Timestamp s with
  | Some t => t
  | None => documentTimestamp
  end.

Definition statementLess (documentTimestamp : Time) (a b : vex.Statement)
    : bool :=
  match String.compare (vex.Vulnerability a) (vex.Vulnerability b) with
  | Lt => true
  | Gt => false
  | Eq =>
      (statementTime documentTimestamp a <? statementTime documentTimestamp b)%Z
  end.

Definition statementOrder (documentTimestamp : Time) (a b : vex.Statement)
    : Prop :=
  statementLess documentTimestamp b a = false.

#[global] Instance statementOrder_dec ts : RelDecision (statementOrder ts).
Proof. intros a b. unfold statementOrder. apply _. Defined.

Definition sortByVulnerability (stmts : list vex.Statement)
    (documentTimestamp : Time) : list vex.Statement :=
  merge_sort (statementOrder documentTimestamp) stmts.

(** A serializer that writes the package identity, and one that rejects
    packages without a name. *)
Definition marshalIdentity (c : build.Configuration) : bytes * option error :=
  (list_byte_of_string
     (String.append "name: "
        (String.append (build.Name (build.Package_ c))
           (String.append " version: "
              (build.Version (build.Package_ c))))),
   None).

Definition marshalNamed (c : build.Configuration) : bytes * option error :=
  if decide (build.Name (build.Package_ c) = "")
  then ([], Some (ExternalError "yaml: missing name"))
  else marshalIdentity c.

(** A purl parser for locators of the shape [pkg:apk/<namespace>/<name>];
    anything else is rejected. *)
Fixpoint splitSlash (s : string) (cur : string) : list string :=
  match s with
  | EmptyString => [cur]
  | String c rest =>
      if Ascii.eqb c "/"%char then cur :: splitSlash rest EmptyString
      else splitSlash rest (String.append cur (String c EmptyString))
  end.

Definition parseApkPurl (locator : string) : purl.PackageURL * option error :=
  let zero := purl.mkPackageURL "" "" "" "" "" in
  match splitSlash locator EmptyString with
  | [scheme; ns; name] =>
      if decide (scheme = "pkg:apk")
      then (purl.mkPackageURL "apk" ns name "" "", None)
      else (zero, Some (ExternalError "purl scheme is not pkg:apk"))
  | _ => (zero, Some (ExternalError "purl is missing type or name"))
  end.

(** A package identity rendered as one purl. *)
Definition packageURL (c : build.Configuration) (distro : string)
    : list string :=
  [String.append "pkg:apk/"
     (String.append distro
        (String.append "/" (build.Name (build.Package_ c))))].

(** A merge that concatenates the statements of the sub-documents, and one
    that rejects an empty list of documents. *)
Definition mergeConcat (opts : ctl.MergeOptions) (docs : list vex.VEX)
    : option vex.VEX * option error :=
  (Some {| vex.doc_ID := ctl.DocumentID opts;
           vex.doc_Author := ctl.Author opts;
           vex.doc_AuthorRole := ctl.AuthorRole opts;
           vex.doc_Timestamp := None;
           vex.doc_Statements := docs ≫= vex.doc_Statements |},
   None).

Definition mergeNonEmpty (opts : ctl.MergeOptions) (docs : list vex.VEX)
    : option vex.VEX * option error :=
  match docs with
  | [] => (None, Some (ExternalError "at least two documents are required"))
  | _ => mergeConcat opts docs
  end.

(** Scenario B of the specification: version 0 lists CVE-1, and one advisory
    record for CVE-1 has the given status and timestamp. *)
Definition scenarioB (status : string) (T : Time) : build.Configuration :=
  {| build.Package_ := build.mkPackage "pkg" "1.0" 0%Z;
     build.Secfixes_ := {[ "0" := ["CVE-1"] ]};
     build.Advisories_ :=
       {[ "CVE-1" := [build.mkAdvisoryContent T status "" "" ""] ]} |}.

(** Scenario A of the specification: version 0 lists CVE-1, version 1.2
    lists CVE-2, and there are no advisories. *)
Definition scenarioA : build.Configuration :=
  {| build.Package_ := build.mkPackage "libfoo" "1.2" 0%Z;
     build.Secfixes_ := {[ "0" := ["CVE-1"]; "1.2" := ["CVE-2"] ]};
     build.Advisories_ := ∅ |}.

Definition wolfi : Config :=
  {| Distro := "wolfi"; Author := "wolfictl"; AuthorRole := "automation" |}.

Definition purlsWolfi : list string := ["pkg:apk/wolfi/pkg"].

(** A clock that advances by one at each reading. *)
Definition tick (i : nat) : Time := Z.of_nat i.

(** A package whose versions 1.0 and 1.2 both list CVE-2, without
    advisories; and a package without a name. *)
Definition scenarioDup : build.Configuration :=
  {| build.Package_ := build.mkPackage "libbar" "1.2" 0%Z;
     build.Secfixes_ := {[ "1.0" := ["CVE-2"]; "1.2" := ["CVE-2"] ]};
     build.Advisories_ := ∅ |}.

Definition nameless : build.Configuration :=
  {| build.Package_ := build.mkPackage "" "0.1" 0%Z;
     build.Secfixes_ := ∅;
     build.Advisories_ := ∅ |}.

(** The purl references of [sbomParsed], in one package. *)
Definition sbomFlat : spdx.Document :=
  spdx.mkDocument
    [ spdx.mkPackage
        [ spdx.mkExternalRef "PACKAGE_MANAGER" "pkg:apk/wolfi/foo" "purl";
          spdx.mkExternalRef "PACKAGE_MANAGER" "pkg:apk/alpine/foo" "purl";
          spdx.mkExternalRef "PACKAGE_MANAGER" "pkg:apk/wolfi/bar" "purl" ] ].

(** A file system with one file, and a decoder that accepts only the
    empty JSON object. *)
Definition readOneFile (path : string) : bytes * option error :=
  if decide (path = "sbom.spdx.json")
  then (list_byte_of_string "{}", None)
  else ([], Some (ExternalError "no such file or directory")).

Definition unmarshalEmptyObject (data : bytes) (doc : spdx.Document)
    : spdx.Document * option error :=
  if decide ((data : list Byte.byte) = list_byte_of_string "{}")
  then (doc, None)
  else (doc, Some (ExternalError "unexpected end of JSON input")).

(** ** Vocabulary of the properties *)

(** The (version, vulnerability ID) pairs of a secfixes map, one per
    occurrence of an ID in a version's list. *)
Definition secfixesPairs (secfixes : build.Secfixes)
    : list (string * string) :=
  map_to_list secfixes ≫= fun '(ver, vulns) => (fun v => (ver, v)) <$> vulns.

(** The (vulnerability ID, record) pairs of an advisories map. *)
Definition advisoryPairs (advisories : build.Advisories)
    : list (string * build.AdvisoryContent) :=
  map_to_list advisories ≫= fun '(v, entries) => (fun e => (v, e)) <$> entries.

(** The vulnerability IDs that some advisory record declares
    not_affected. *)
Definition notAffectedIDs (advisories : build.Advisories) : gset string :=
  list_to_set
    ((fun p => p.1)
       <$> filter (fun p => build.Status p.2 = vex.StatusNotAffected)
                  (advisoryPairs advisories)).

(** A character is one of the sixteen lowercase hexadecimal digits. *)
Definition lower_hex (c : ascii) : bool :=
  existsb (Ascii.eqb c) (list_ascii_of_string "0123456789abcdef").

(** The external references of type purl of an SBOM, in document order. *)
Definition purlRefs (sbom : spdx.Document) : list spdx.ExternalRef :=
  filter (fun ref => spdx.Type_ ref = "purl")
         (spdx.Packages sbom ≫= spdx.ExternalRefs).

(** Two SBOMs: one whose purl locators all parse with [parseApkPurl], one
    with a malformed locator after a valid one. *)
Definition sbomParsed : spdx.Document :=
  spdx.mkDocument
    [ spdx.mkPackage
        [ spdx.mkExternalRef "PACKAGE_MANAGER" "pkg:apk/wolfi/foo" "purl";
          spdx.mkExternalRef "SECURITY" "cpe:2.3:a:foo" "cpe23Type";
          spdx.mkExternalRef "PACKAGE_MANAGER" "pkg:apk/alpine/foo" "purl" ];
      spdx.mkPackage
        [ spdx.mkExternalRef "PACKAGE_MANAGER" "pkg:apk/wolfi/bar" "purl" ] ].

Definition sbomMalformed : spdx.Document :=
  spdx.mkDocument
    [ spdx.mkPackage
        [ spdx.mkExternalRef "PACKAGE_MANAGER" "pkg:apk/wolfi/foo" "purl";
          spdx.mkExternalRef "PACKAGE_MANAGER" "not a purl" "purl" ] ].

(** ** The code of pkg/vex/vex.go

    The collaborators of other packages are the parameters of the section:
    the iteration order of Go maps, [vex.SortStatements], [yaml.Marshal],
    [purl.FromString], the method [PackageURLs] of [build.Configuration] and the method
    [Merge] of [ctl.VexCtl]. *)

Section Vex.

(** [for k, v := range m]: the entries of [m] in the order the runtime
    walks them. *)
Variable range : forall V : Type, gmap string V -> list (string * V).

(** [vex.SortStatements(stmts, documentTimestamp)] sorts the slice in
    place; the model returns the slice after the call. *)
Variable SortStatements : list vex.Statement -> Time -> list vex.Statement.

Variable yamlMarshal : build.Configuration -> bytes * option error.
Variable FromString : string -> purl.PackageURL * option error.
Variable PackageURLs : build.Configuration -> string -> list string.
Variable Merge :
  ctl.MergeOptions -> list vex.VEX -> option vex.VEX * option error.

(** [os.ReadFile]; and [json.Unmarshal(data, sbom)], which fills the
    document it is given: the model returns the document after the call. *)
Variable ReadFile : string -> bytes * option error.
Variable Unmarshal : bytes -> spdx.Document -> spdx.Document * option error.

Definition determineStatus (packageVersion : string) : string :=
  if decide (packageVersion = "0") then vex.StatusNotAffected
  else vex.StatusFixed.

Definition statementFromSecfixesItem
    (pkgVersion vulnerability : string) (purls : list string)
    : vex.Statement :=
  let status := determineStatus pkgVersion in
  {| vex.Vulnerability := vulnerability;
     vex.Status := status;
     vex.Justification := "";
     vex.ActionStatement := "";
     vex.ImpactStatement := "";
     vex.Products := purls;
     vex.Timestamp := None |}.

Definition statementsFromSecfixes
    (secfixes : build.Secfixes) (purls : list string)
    : list vex.Statement :=
  fold_left
    (fun stmts '(packageVersion, vulnerabilities) =>
       fold_left
         (fun stmts v =>
            stmts ++ [statementFromSecfixesItem packageVersion v purls])
         vulnerabilities stmts)
    (range _ secfixes) [].

Definition statementFromAdvisoryContent
    (content : build.AdvisoryContent) (vulnerability : string)
    (purls : list string) : vex.Statement :=
  {| vex.Vulnerability := vulnerability;
     vex.Status := build.Status content;
     vex.Justification := build.Justification content;
     vex.ActionStatement := build.ActionStatement content;
     vex.ImpactStatement := build.ImpactStatement content;
     vex.Products := purls;
     vex.Timestamp := Some (build.Timestamp content) |}.

Definition statementsFromAdvisories
    (advisories : build.Advisories) (purls : list string)
    : list vex.Statement :=
  fold_left
    (fun stmts '(v, entries) =>
       fold_left
         (fun stmts entry =>
            stmts ++ [statementFromAdvisoryContent entry v purls])
         entries stmts)
    (range _ advisories) [].

(** The two loops of [statementsFromConfiguration]. *)
Definition notAffectedVulns_of (advisoriesStatements : list vex.Statement)
    : gset string :=
  fold_left
    (fun (seen : gset string) s =>
       if decide (vex.Status s = vex.StatusNotAffected)
       then {[ vex.Vulnerability s ]} ∪ seen
       else seen)
    advisoriesStatements ∅.

Definition keepUnobviated (notAffectedVulns : gset string)
    (secfixesStatements : list vex.Statement) : list vex.Statement :=
  fold_left
    (fun statements s =>
       if decide (vex.Vulnerability s ∈ notAffectedVulns)
       then statements
       else statements ++ [s])
    secfixesStatements [].

Definition statementsFromConfiguration
    (cfg : build.Configuration) (documentTimestamp : Time)
    (purls : list string) : list vex.Statement :=
  let secfixesStatements :=
    statementsFromSecfixes (build.Secfixes_ cfg) purls in
  let advisoriesStatements :=
    statementsFromAdvisories (build.Advisories_ cfg) purls in
  let notAffectedVulns := notAffectedVulns_of advisoriesStatements in
  let statements := keepUnobviated notAffectedVulns secfixesStatements in
  let statements := statements ++ advisoriesStatements in
  SortStatements statements documentTimestamp.

(** [extractSBOMPurls]: the loop over the external references of one
    package, then the loop over the packages.  [inr err] is the early
    return. *)
Fixpoint extractRefs (vexCfg : Config) (refs : list spdx.ExternalRef)
    (purls : list purl.PackageURL) : list purl.PackageURL + error :=
  match refs with
  | [] => inl purls
  | ref :: rest =>
      if decide (spdx.Type_ ref <> "purl") then extractRefs vexCfg rest purls
      else
        match FromString (spdx.Locator ref) with
        | (_, Some err) =>
            inr (Errorf (String.append "parsing purl: " (spdx.Locator ref))
                        err)
        | (p, None) =>
            if decide (purl.Namespace p = Distro vexCfg)
            then extractRefs vexCfg rest (purls ++ [p])
            else extractRefs vexCfg rest purls
        end
  end.

Fixpoint extractPackages (vexCfg : Config) (pkgs : list spdx.Package)
    (purls : list purl.PackageURL) : list purl.PackageURL + error :=
  match pkgs with
  | [] => inl purls
  | pkg :: rest =>
      match extractRefs vexCfg (spdx.ExternalRefs pkg) purls with
      | inr err => inr err
      | inl purls' => extractPackages vexCfg rest purls'
      end
  end.

(** The returned slice is [None] when it is Go's nil slice. *)
Definition extractSBOMPurls (vexCfg : Config) (sbom : spdx.Document)
    : option (list purl.PackageURL) * option error :=
  match extractPackages vexCfg (spdx.Packages sbom) [] with
  | inr err => (None, Some err)
  | inl purls => (Some purls, None)
  end.

(** [parseSBOM]: the document is [None] when the pointer returned is
    nil. *)
Definition parseSBOM (sbomPath : string)
    : option spdx.Document * option error :=
  let sbom := spdx.mkDocument [] in
  match ReadFile sbomPath with
  | (_, Some err) => (None, Some (Errorf "opening SBOM file" err))
  | (data, None) =>
      match Unmarshal data sbom with
      | (_, Some err) => (None, Some (Errorf "unmarshaling SBOM data" err))
      | (sbom, None) => (Some sbom, None)
      end
  end.

(** [generateDocumentID]: the loop that hashes each configuration, with
    its two early returns, then the hash of the sorted, joined hashes. *)
Fixpoint hashConfigs (configs : list build.Configuration)
    (hashes : list string) : list string + error :=
  match configs with
  | [] => inl hashes
  | c :: rest =>
      match yamlMarshal c with
      | (_, Some err) =>
          inr (Errorf "marshaling melange configuration" err)
      | (data, None) =>
          let h := Sha256.New in
          match Sha256.Write h data with
          | (_, (_, Some err)) =>
              inr (Errorf "hashing melange configuration" err)
          | (h, (_, None)) =>
              hashConfigs rest (hashes ++ [hex (Sha256.Sum h [])])
          end
      end
  end.

Definition generateDocumentID (configs : list build.Configuration)
    : string * option error :=
  match hashConfigs configs [] with
  | inr err => (EmptyString, Some err)
  | inl hashes =>
      let hashes := sort_Strings hashes in
      let h := Sha256.New in
      match Sha256.Write h (list_byte_of_string (Join hashes ":")) with
      | (_, (_, Some err)) => (EmptyString, Some (Errorf "hashing config files" err))
      | (h, (_, None)) =>
          (String.append "vex-" (hex (Sha256.Sum h [])), None)
      end
  end.

(** [FromPackageConfiguration]: [clock i] is the time read by the i-th
    call of [vex.New]. *)
Fixpoint subdocuments (clock : nat -> Time) (i : nat) (vexCfg : Config)
    (buildCfg : list build.Configuration) (docs : list vex.VEX)
    : list vex.VEX :=
  match buildCfg with
  | [] => docs
  | conf :: rest =>
      let subdoc := vex.New (clock i) in
      let purls := PackageURLs conf (Distro vexCfg) in
      let stamp := default 0%Z (vex.doc_Timestamp subdoc) in
      let subdoc :=
        {| vex.doc_ID := vex.doc_ID subdoc;
           vex.doc_Author := vex.doc_Author subdoc;
           vex.doc_AuthorRole := vex.doc_AuthorRole subdoc;
           vex.doc_Timestamp := vex.doc_Timestamp subdoc;
           vex.doc_Statements :=
             statementsFromConfiguration conf stamp purls |} in
      subdocuments clock (S i) vexCfg rest (docs ++ [subdoc])
  end.

Definition FromPackageConfiguration (clock : nat -> Time) (vexCfg : Config)
    (buildCfg : list build.Configuration)
    : option vex.VEX * option error :=
  match generateDocumentID buildCfg with
  | (_, Some err) => (None, Some (Errorf "generating doc ID" err))
  | (id, None) =>
      let docs := subdocuments clock 0 vexCfg buildCfg [] in
      let mergeOpts :=
        {| ctl.DocumentID := id;
           ctl.Author := Author vexCfg;
           ctl.AuthorRole := AuthorRole vexCfg |} in
      match Merge mergeOpts docs with
      | (_, Some err) => (None, Some (Errorf "merging vex documents" err))
      | (doc, None) => (doc, None)
      end
  end.

(** *** Vocabulary of the proofs *)

(** An external reference is of type purl; its locator parses; the purl
    read from it. *)
Definition isPurl (ref : spdx.ExternalRef) : Prop := spdx.Type_ ref = "purl".

Definition parses (ref : spdx.ExternalRef) : Prop :=
  (FromString (spdx.Locator ref)).2 = None.

Definition parsed (ref : spdx.ExternalRef) : purl.PackageURL :=
  (FromString (spdx.Locator ref)).1.

(** The sub-document built for a configuration at a given time. *)
Definition subdocumentOf (vexCfg : Config) (now : Time)
    (conf : build.Configuration) : vex.VEX :=
  {| vex.doc_ID := ""; vex.doc_Author := ""; vex.doc_AuthorRole := "";
     vex.doc_Timestamp := Some now;
     vex.doc_Statements :=
       statementsFromConfiguration conf now
         (PackageURLs conf (Distro vexCfg)) |}.

(** A configuration serializes; the hexadecimal digest of its
    serialization. *)
Definition serializes (c : build.Configuration) : Prop :=
  (yamlMarshal c).2 = None.

Definition configHash (c : build.Configuration) : string :=
  hex (Sha256.sum256 (yamlMarshal c).1).

(** *** What is assumed of the collaborators *)

(** A map is walked once through each of its entries. *)
Hypothesis range_perm :
  forall (V : Type) (m : gmap string V), range V m ≡ₚ map_to_list m.

(** Sorting rearranges the statements and nothing else. *)
Hypothesis SortStatements_perm :
  forall stmts ts, SortStatements stmts ts ≡ₚ stmts.

(** *** The statement builders *)

Lemma fold_left_append {A B : Type} (f : A -> B) (l : list A) (acc : list B) :
  fold_left (fun stmts x => stmts ++ [f x]) l acc = acc ++ (f <$> l).
Proof.
  revert acc. induction l as [|x l IH]; intros acc; simpl.
  - by rewrite app_nil_r.
  - rewrite IH. by rewrite <- app_assoc.
Qed.

Lemma fold_left_append_nested {K A B : Type} (f : K -> A -> B)
    (kvs : list (K * list A)) (acc : list B) :
  fold_left
    (fun stmts '(k, vs) => fold_left (fun stmts v => stmts ++ [f k v]) vs stmts)
    kvs acc
  = acc ++ (kvs ≫= fun '(k, vs) => f k <$> vs).
Proof.
  revert acc. induction kvs as [|[k vs] kvs IH]; intros acc; simpl.
  - by rewrite app_nil_r.
  - rewrite IH, fold_left_append. by rewrite <- app_assoc.
Qed.

Lemma bind_pairs_fmap {K A B : Type} (f : K -> A -> B)
    (kvs : list (K * list A)) :
  (kvs ≫= fun '(k, vs) => f k <$> vs)
  = (fun p => f p.1 p.2) <$> (kvs ≫= fun '(k, vs) => (fun v => (k, v)) <$> vs).
Proof.
  induction kvs as [|[k vs] kvs IH]; [done|].
  rewrite !bind_cons, fmap_app, <- IH. f_equal.
  by rewrite <- list_fmap_compose.
Qed.

Lemma statementsFromSecfixes_range secfixes purls :
  statementsFromSecfixes secfixes purls
  = range _ secfixes ≫=
      fun '(ver, vulns) =>
        (fun v => statementFromSecfixesItem ver v purls) <$> vulns.
Proof.
  unfold statementsFromSecfixes.
  by rewrite (fold_left_append_nested
                (fun ver v => statementFromSecfixesItem ver v purls)).
Qed.

Lemma statementsFromAdvisories_range advisories purls :
  statementsFromAdvisories advisories purls
  = range _ advisories ≫=
      fun '(v, entries) =>
        (fun e => statementFromAdvisoryContent e v purls) <$> entries.
Proof.
  unfold statementsFromAdvisories.
  by rewrite (fold_left_append_nested
                (fun v e => statementFromAdvisoryContent e v purls)).
Qed.

Lemma statementsFromSecfixes_pairs secfixes purls :
  statementsFromSecfixes secfixes purls
  ≡ₚ (fun p => statementFromSecfixesItem p.1 p.2 purls)
       <$> secfixesPairs secfixes.
Proof.
  rewrite statementsFromSecfixes_range, range_perm.
  unfold secfixesPairs.
  pose proof (bind_pairs_fmap
                (fun ver v => statementFromSecfixesItem ver v purls)
                (map_to_list secfixes)) as Hpairs.
  cbv beta in Hpairs. by rewrite Hpairs.
Qed.

Lemma statementsFromAdvisories_pairs advisories purls :
  statementsFromAdvisories advisories purls
  ≡ₚ (fun p => statementFromAdvisoryContent p.2 p.1 purls)
       <$> advisoryPairs advisories.
Proof.
  rewrite statementsFromAdvisories_range, range_perm.
  unfold advisoryPairs.
  pose proof (bind_pairs_fmap
                (fun v e => statementFromAdvisoryContent e v purls)
                (map_to_list advisories)) as Hpairs.
  cbv beta in Hpairs. by rewrite Hpairs.
Qed.

(** The entries of one key, counted through the statements built from a
    map. *)
Lemma length_filter_key {A B : Type} (f : string -> A -> B)
    (key : B -> string) (m : gmap string (list A)) (v : string)
    (entries : list A) :
  (forall k a, key (f k a) = k) ->
  m !! v = Some entries ->
  length (filter (fun s => key s = v)
                 (map_to_list m ≫= fun '(k, vs) => f k <$> vs))
  = length entries.
Proof.
  intros Hkey Hv.
  rewrite <- (map_to_list_delete m v entries Hv).
  rewrite bind_cons, filter_app, length_app.
  assert (filter (fun s => key s = v) (f v <$> entries) = f v <$> entries)
    as ->.
  { clear Hv. induction entries as [|e entries IH]; [done|].
    rewrite fmap_cons, filter_cons_True by apply Hkey. by rewrite IH. }
  assert (filter (fun s => key s = v)
            (map_to_list (delete v m) ≫= fun '(k, vs) => f k <$> vs) = [])
    as ->.
  { apply elem_of_nil_inv. intros x [HP Hin]%list_elem_of_filter.
    apply list_elem_of_bind in Hin as ([k vs] & Hx & Hk).
    apply list_elem_of_fmap in Hx as (a & -> & _).
    apply elem_of_map_to_list, lookup_delete_Some in Hk as [Hne _].
    rewrite Hkey in HP. congruence. }
  rewrite length_fmap. simpl. lia.
Qed.

(** C3. The statements built from a secfixes map are, up to order, one
    statement per (version, vulnerability ID) pair; the statement of a
    pair names that vulnerability, has status not_affected exactly when the
    version is the string 0 and fixed otherwise, and has no justification,
    action statement, impact statement or timestamp. *)
Theorem statementsFromSecfixes_one_per_pair
    (secfixes : build.Secfixes) (purls : list string) :
  statementsFromSecfixes secfixes purls
  ≡ₚ (fun p => statementFromSecfixesItem p.1 p.2 purls)
       <$> secfixesPairs secfixes
  /\ forall ver v : string,
       let s := statementFromSecfixesItem ver v purls in
       vex.Vulnerability s = v
       /\ (vex.Status s = vex.StatusNotAffected <-> ver = "0")
       /\ (ver <> "0" -> vex.Status s = vex.StatusFixed)
       /\ vex.Justification s = ""
       /\ vex.ActionStatement s = ""
       /\ vex.ImpactStatement s = ""
       /\ vex.Timestamp s = None.
Proof.
  split; [apply statementsFromSecfixes_pairs|].
  intros ver v. simpl. unfold determineStatus.
  repeat split; try done; destruct (decide (ver = "0")); try done.
Qed.

(** C6. The statements built from an advisories map are, up to order, one
    statement per (vulnerability ID, record) pair, so an ID with n records
    yields n statements; the statement of a pair names that ID and copies
    the record's status, justification, action statement, impact statement
    and timestamp. *)
Theorem statementsFromAdvisories_one_per_record
    (advisories : build.Advisories) (purls : list string) :
  statementsFromAdvisories advisories purls
  ≡ₚ (fun p => statementFromAdvisoryContent p.2 p.1 purls)
       <$> advisoryPairs advisories
  /\ (forall (v : string) (e : build.AdvisoryContent),
       let s := statementFromAdvisoryContent e v purls in
       vex.Vulnerability s = v
       /\ vex.Status s = build.Status e
       /\ vex.Justification s = build.Justification e
       /\ vex.ActionStatement s = build.ActionStatement e
       /\ vex.ImpactStatement s = build.ImpactStatement e
       /\ vex.Timestamp s = Some (build.Timestamp e))
  /\ (forall (v : string) (entries : list build.AdvisoryContent),
       advisories !! v = Some entries ->
       length (filter (fun s => vex.Vulnerability s = v)
                      (statementsFromAdvisories advisories purls))
       = length entries).
Proof.
  split; [apply statementsFromAdvisories_pairs|].
  split; [intros v e; simpl; done|].
  intros v entries Hv.
  rewrite statementsFromAdvisories_range, range_perm.
  by apply (length_filter_key
              (fun v e => statementFromAdvisoryContent e v purls)
              vex.Vulnerability).
Qed.

(** *** The reconciler *)

Lemma elem_of_notAffectedVulns_acc (l : list vex.Statement)
    (seen : gset string) (v : string) :
  v ∈ fold_left
        (fun (seen : gset string) s =>
           if decide (vex.Status s = vex.StatusNotAffected)
           then {[ vex.Vulnerability s ]} ∪ seen
           else seen)
        l seen
  <-> v ∈ seen
      \/ exists s, s ∈ l /\ vex.Vulnerability s = v
                   /\ vex.Status s = vex.StatusNotAffected.
Proof.
  revert seen. induction l as [|a l IH]; intros seen; simpl.
  - split; [auto|]. intros [?|(s & Hs & _)]; [done|]. by apply elem_of_nil in Hs.
  - rewrite IH. destruct (decide (vex.Status a = vex.StatusNotAffected)) as [Ha|Ha].
    + rewrite elem_of_union, elem_of_singleton. split.
      * intros [[->|?]|(s & Hs & ?)].
        -- right. exists a. split; [by left|done].
        -- by left.
        -- right. exists s. split; [by right|done].
      * intros [?|(s & [->|Hs]%elem_of_cons & Hv & Hst)]; [auto..|].
        right. exists s. done.
    + split.
      * intros [?|(s & Hs & ?)]; [auto|].
        right. exists s. split; [by right|done].
      * intros [?|(s & [->|Hs]%elem_of_cons & Hv & Hst)]; [auto|done|].
        right. exists s. done.
Qed.

Lemma elem_of_notAffectedVulns_of (l : list vex.Statement) (v : string) :
  v ∈ notAffectedVulns_of l
  <-> exists s, s ∈ l /\ vex.Vulnerability s = v
               /\ vex.Status s = vex.StatusNotAffected.
Proof.
  unfold notAffectedVulns_of. rewrite elem_of_notAffectedVulns_acc.
  split; [intros [H|H]; [by apply not_elem_of_empty in H|done]|auto].
Qed.

Lemma keepUnobviated_acc (seen : gset string) (l acc : list vex.Statement) :
  fold_left
    (fun statements s =>
       if decide (vex.Vulnerability s ∈ seen) then statements
       else statements ++ [s])
    l acc
  = acc ++ filter (fun s => vex.Vulnerability s ∉ seen) l.
Proof.
  revert acc. induction l as [|a l IH]; intros acc; simpl.
  - by rewrite app_nil_r.
  - rewrite IH, filter_cons.
    destruct (decide (vex.Vulnerability a ∈ seen)) as [Ha|Ha].
    + by rewrite decide_False by auto.
    + rewrite decide_True by done. by rewrite <- app_assoc.
Qed.

Lemma keepUnobviated_filter (seen : gset string) (l : list vex.Statement) :
  keepUnobviated seen l = filter (fun s => vex.Vulnerability s ∉ seen) l.
Proof. unfold keepUnobviated. by rewrite keepUnobviated_acc. Qed.

(** The reconciled list is, up to order, the legacy statements that are
    not suppressed followed by all the advisory statements. *)
Lemma statementsFromConfiguration_perm cfg ts purls :
  statementsFromConfiguration cfg ts purls
  ≡ₚ filter
       (fun s =>
          vex.Vulnerability s
          ∉ notAffectedVulns_of
              (statementsFromAdvisories (build.Advisories_ cfg) purls))
       (statementsFromSecfixes (build.Secfixes_ cfg) purls)
     ++ statementsFromAdvisories (build.Advisories_ cfg) purls.
Proof.
  unfold statementsFromConfiguration.
  by rewrite SortStatements_perm, keepUnobviated_filter.
Qed.

Lemma statementsFromSecfixes_fields secfixes purls s :
  s ∈ statementsFromSecfixes secfixes purls ->
  vex.Timestamp s = None /\ vex.Products s = purls.
Proof.
  rewrite statementsFromSecfixes_range.
  intros ([ver vulns] & Hs & _)%list_elem_of_bind.
  by apply list_elem_of_fmap in Hs as (v & -> & _).
Qed.

Lemma statementsFromAdvisories_fields advisories purls s :
  s ∈ statementsFromAdvisories advisories purls ->
  vex.Timestamp s <> None /\ vex.Products s = purls.
Proof.
  rewrite statementsFromAdvisories_range.
  intros ([v entries] & Hs & _)%list_elem_of_bind.
  by apply list_elem_of_fmap in Hs as (e & -> & _).
Qed.

(** C2. Let S be the vulnerability IDs for which some advisory statement
    has status not_affected.  The reconciled list contains no secfixes
    statement whose ID is in S, whatever its status; it contains every
    secfixes statement whose ID is not in S; and it contains every advisory
    statement. *)
Theorem statementsFromConfiguration_suppression
    (cfg : build.Configuration) (ts : Time) (purls : list string) :
  let secfixesStatements :=
    statementsFromSecfixes (build.Secfixes_ cfg) purls in
  let advisoriesStatements :=
    statementsFromAdvisories (build.Advisories_ cfg) purls in
  let out := statementsFromConfiguration cfg ts purls in
  let S (v : string) :=
    exists a, a ∈ advisoriesStatements /\ vex.Vulnerability a = v
              /\ vex.Status a = vex.StatusNotAffected in
  (forall s, s ∈ secfixesStatements -> S (vex.Vulnerability s) -> s ∉ out)
  /\ (forall s, s ∈ secfixesStatements -> ~ S (vex.Vulnerability s) -> s ∈ out)
  /\ (forall a, a ∈ advisoriesStatements -> a ∈ out).
Proof.
  intros secs advs out S. subst out.
  repeat split.
  - intros s Hs HS. rewrite statementsFromConfiguration_perm.
    rewrite elem_of_app, list_elem_of_filter.
    intros [[Hnot _]|Hadv].
    + apply Hnot. by apply elem_of_notAffectedVulns_of.
    + apply statementsFromSecfixes_fields in Hs as [Hs _].
      apply statementsFromAdvisories_fields in Hadv as [Hadv _]. done.
  - intros s Hs HS. rewrite statementsFromConfiguration_perm.
    rewrite elem_of_app, list_elem_of_filter. left. split; [|done].
    by rewrite elem_of_notAffectedVulns_of.
  - intros a Ha. rewrite statementsFromConfiguration_perm.
    rewrite elem_of_app. by right.
Qed.

(** C7. Every statement of the reconciled list has the whole list of
    product identifiers as its products; so when that list is not empty,
    no statement has an empty product list. *)
Theorem statementsFromConfiguration_products
    (cfg : build.Configuration) (ts : Time) (purls : list string) :
  (forall s, s ∈ statementsFromConfiguration cfg ts purls ->
             vex.Products s = purls)
  /\ (purls <> [] ->
      forall s, s ∈ statementsFromConfiguration cfg ts purls ->
                vex.Products s <> []).
Proof.
  assert (forall s, s ∈ statementsFromConfiguration cfg ts purls ->
                    vex.Products s = purls) as Hall.
  { intros s. rewrite statementsFromConfiguration_perm.
    rewrite elem_of_app, list_elem_of_filter.
    intros [[_ Hs]|Hs].
    - by apply statementsFromSecfixes_fields in Hs as [_ ?].
    - by apply statementsFromAdvisories_fields in Hs as [_ ?]. }
  split; [done|]. intros Hne s Hs. by rewrite (Hall s Hs).
Qed.

Lemma range_singleton {V : Type} (k : string) (x : V) :
  range V {[ k := x ]} = [(k, x)].
Proof.
  apply Permutation_singleton_r.
  by rewrite range_perm, map_to_list_singleton.
Qed.

(** C1, as the code has it.  In scenario B the advisory record has status
    affected, which suppresses nothing: the reconciled list holds two
    statements for CVE-1, the legacy not_affected one and the advisory's
    affected one.  Had the record status not_affected, the legacy
    statement would be dropped and the advisory's would be the only one. *)
Theorem scenarioB_reconciled (T ts : Time) (purls : list string) :
  statementsFromConfiguration (scenarioB "affected" T) ts purls
  ≡ₚ [ {| vex.Vulnerability := "CVE-1"; vex.Status := "not_affected";
          vex.Justification := ""; vex.ActionStatement := "";
          vex.ImpactStatement := ""; vex.Products := purls;
          vex.Timestamp := None |};
       {| vex.Vulnerability := "CVE-1"; vex.Status := "affected";
          vex.Justification := ""; vex.ActionStatement := "";
          vex.ImpactStatement := ""; vex.Products := purls;
          vex.Timestamp := Some T |} ]
  /\ statementsFromConfiguration (scenarioB "not_affected" T) ts purls
     = [ {| vex.Vulnerability := "CVE-1"; vex.Status := "not_affected";
            vex.Justification := ""; vex.ActionStatement := "";
            vex.ImpactStatement := ""; vex.Products := purls;
            vex.Timestamp := Some T |} ].
Proof.
  split; [|apply Permutation_singleton_r];
    unfold statementsFromConfiguration;
    rewrite SortStatements_perm, keepUnobviated_filter;
    rewrite statementsFromSecfixes_range, statementsFromAdvisories_range;
    unfold scenarioB; simpl; rewrite !range_singleton; simpl.
  - rewrite filter_cons_True; [done|].
    rewrite elem_of_notAffectedVulns_of. intros (s & Hs & _ & Hst).
    apply list_elem_of_singleton in Hs as ->. simpl in Hst. done.
  - rewrite filter_cons_False; [done|].
    intros Hnot. apply Hnot, elem_of_notAffectedVulns_of.
    eexists. split; [by left|done].
Qed.

(** *** The SBOM product extractor *)

Lemma extractRefs_ok vexCfg refs purls :
  Forall parses (filter isPurl refs) ->
  extractRefs vexCfg refs purls
  = inl (purls ++ filter (fun p => purl.Namespace p = Distro vexCfg)
                        (parsed <$> filter isPurl refs)).
Proof.
  revert purls. induction refs as [|ref refs IH]; intros purls Hall; simpl.
  - by rewrite app_nil_r.
  - destruct (decide (spdx.Type_ ref <> "purl")) as [Hty|Hty].
    + rewrite (filter_cons_False isPurl) in Hall |- * by exact Hty.
      by apply IH.
    + apply dec_stable in Hty.
      rewrite (filter_cons_True isPurl) in Hall |- * by exact Hty.
      apply Forall_cons in Hall as [Hok Hall].
      unfold parses in Hok. rewrite fmap_cons, filter_cons.
      assert (parsed ref = (FromString (spdx.Locator ref)).1) as -> by done.
      destruct (FromString (spdx.Locator ref)) as [p [err|]]; [done|].
      simpl. destruct (decide (purl.Namespace p = Distro vexCfg)).
      * rewrite IH by done. by rewrite <- app_assoc.
      * by apply IH.
Qed.

Lemma extractRefs_err vexCfg refs purls :
  Exists (fun ref => ~ parses ref) (filter isPurl refs) ->
  exists err, extractRefs vexCfg refs purls = inr err.
Proof.
  revert purls. induction refs as [|ref refs IH]; intros purls Hex; simpl.
  - by apply Exists_nil in Hex.
  - destruct (decide (spdx.Type_ ref <> "purl")) as [Hty|Hty].
    + rewrite (filter_cons_False isPurl) in Hex by exact Hty. by apply IH.
    + apply dec_stable in Hty.
      rewrite (filter_cons_True isPurl) in Hex by exact Hty.
      unfold parses in Hex.
      destruct (FromString (spdx.Locator ref)) as [p [err|]] eqn:Hp;
        [by eexists|].
      apply Exists_cons in Hex as [Hbad|Hex]; [by rewrite Hp in Hbad|].
      destruct (decide (purl.Namespace p = Distro vexCfg)); by apply IH.
Qed.

Lemma extractPackages_ok vexCfg pkgs purls :
  Forall parses (filter isPurl (pkgs ≫= spdx.ExternalRefs)) ->
  extractPackages vexCfg pkgs purls
  = inl (purls ++ filter (fun p => purl.Namespace p = Distro vexCfg)
                        (parsed <$> filter isPurl (pkgs ≫= spdx.ExternalRefs))).
Proof.
  revert purls. induction pkgs as [|pkg pkgs IH]; intros purls; simpl.
  - by rewrite app_nil_r.
  - rewrite filter_app, Forall_app. intros [Hpkg Hrest].
    rewrite extractRefs_ok, IH by done.
    by rewrite fmap_app, filter_app, app_assoc.
Qed.

Lemma extractPackages_err vexCfg pkgs purls :
  Exists (fun ref => ~ parses ref)
         (filter isPurl (pkgs ≫= spdx.ExternalRefs)) ->
  exists err, extractPackages vexCfg pkgs purls = inr err.
Proof.
  revert purls. induction pkgs as [|pkg pkgs IH]; intros purls; simpl.
  - intros Hex. by apply Exists_nil in Hex.
  - rewrite filter_app, Exists_app. intros [Hpkg|Hrest].
    + destruct (extractRefs_err vexCfg _ purls Hpkg) as [err ->]. by eexists.
    + destruct (extractRefs vexCfg (spdx.ExternalRefs pkg) purls);
        [by apply IH|by eexists].
Qed.

(** C8. The product extractor looks only at the external references of
    type purl.  If the locator of one of them does not parse, it returns an
    error and the nil slice, whatever was collected before; if all parse,
    it returns, without error, the parsed purls whose namespace is the
    configured distro, in document order. *)
Theorem extractSBOMPurls_spec (vexCfg : Config) (sbom : spdx.Document) :
  (forall ref,
     ref ∈ purlRefs sbom -> (FromString (spdx.Locator ref)).2 <> None ->
     exists err, extractSBOMPurls vexCfg sbom = (None, Some err))
  /\ ((forall ref,
         ref ∈ purlRefs sbom -> (FromString (spdx.Locator ref)).2 = None) ->
      extractSBOMPurls vexCfg sbom
      = (Some (filter (fun p => purl.Namespace p = Distro vexCfg)
                      ((fun ref => (FromString (spdx.Locator ref)).1)
                         <$> purlRefs sbom)),
         None)).
Proof.
  unfold extractSBOMPurls, purlRefs. split.
  - intros ref Hin Hbad.
    destruct (extractPackages_err vexCfg (spdx.Packages sbom) []) as [err ->];
      [|by eexists].
    apply Exists_exists. by exists ref.
  - intros Hall. rewrite extractPackages_ok; [done|].
    apply Forall_forall. exact Hall.
Qed.

(** *** The order of [sort.Strings] *)

Lemma ascii_compare_refl (a : ascii) : Ascii.compare a a = Eq.
Proof. unfold Ascii.compare. apply N.compare_refl. Qed.

Lemma ascii_compare_lt_trans (a b c : ascii) :
  Ascii.compare a b = Lt -> Ascii.compare b c = Lt -> Ascii.compare a c = Lt.
Proof. unfold Ascii.compare. rewrite !N.compare_lt_iff. lia. Qed.

Lemma string_compare_refl (s : string) : String.compare s s = Eq.
Proof.
  induction s as [|a s IH]; simpl; [done|]. by rewrite ascii_compare_refl.
Qed.

Lemma string_compare_lt_trans (s1 s2 s3 : string) :
  String.compare s1 s2 = Lt -> String.compare s2 s3 = Lt ->
  String.compare s1 s3 = Lt.
Proof.
  revert s2 s3.
  induction s1 as [|a s1 IH]; intros [|b s2] [|c s3]; simpl; try done.
  destruct (Ascii.compare a b) eqn:Hab; try done;
    destruct (Ascii.compare b c) eqn:Hbc; try done.
  - apply Ascii.compare_eq_iff in Hab as ->.
    apply Ascii.compare_eq_iff in Hbc as ->.
    rewrite ascii_compare_refl. apply IH.
  - apply Ascii.compare_eq_iff in Hab as ->. by rewrite Hbc.
  - apply Ascii.compare_eq_iff in Hbc as <-. by rewrite Hab.
  - by rewrite (ascii_compare_lt_trans a b c).
Qed.

Lemma string_le_compare (a b : string) :
  string_le a b <-> String.compare a b = Lt \/ a = b.
Proof.
  unfold string_le, String.leb. split.
  - destruct (String.compare a b) eqn:Hab; [|auto|done].
    apply String.compare_eq_iff in Hab. auto.
  - intros [->| ->]; [done|]. by rewrite string_compare_refl.
Qed.

#[local] Instance string_le_trans : Transitive string_le.
Proof.
  intros a b c. rewrite !string_le_compare.
  intros [Hab| ->] [Hbc| ->]; auto.
  left. by apply (string_compare_lt_trans a b c).
Qed.

#[local] Instance string_le_total : Total string_le.
Proof. intros a b. apply String.leb_total. Qed.

#[local] Instance string_le_antisym : AntiSymm (=) string_le.
Proof. intros a b. apply String.leb_antisym. Qed.

Lemma sort_Strings_sorted (l : list string) :
  StronglySorted string_le (sort_Strings l).
Proof. apply StronglySorted_merge_sort; apply _. Qed.

Lemma sort_Strings_perm (l : list string) : sort_Strings l ≡ₚ l.
Proof. apply merge_sort_Permutation. Qed.

(** The sorted rearrangement of a list of strings is unique: any sorting
    algorithm returns what [sort_Strings] returns. *)
Lemma sort_Strings_unique (l sorted : list string) :
  StronglySorted string_le sorted -> sorted ≡ₚ l -> sorted = sort_Strings l.
Proof.
  intros Hsorted Hperm.
  apply (StronglySorted_unique string_le); [done|apply sort_Strings_sorted|].
  by rewrite sort_Strings_perm.
Qed.

Lemma sort_Strings_Permutation (l1 l2 : list string) :
  l1 ≡ₚ l2 -> sort_Strings l1 = sort_Strings l2.
Proof.
  intros Hperm. apply sort_Strings_unique; [apply sort_Strings_sorted|].
  by rewrite sort_Strings_perm.
Qed.

(** *** The document identity *)

Lemma hashConfigs_ok configs hashes :
  Forall serializes configs ->
  hashConfigs configs hashes = inl (hashes ++ (configHash <$> configs)).
Proof.
  revert hashes.
  induction configs as [|c configs IH]; intros hashes Hall; simpl.
  - by rewrite app_nil_r.
  - apply Forall_cons in Hall as [Hc Hall].
    unfold serializes in Hc. unfold configHash at 1.
    destruct (yamlMarshal c) as [data [err|]]; [done|].
    rewrite IH by done. by rewrite <- app_assoc.
Qed.

Lemma hashConfigs_err configs hashes :
  ~ Forall serializes configs ->
  exists err,
    hashConfigs configs hashes
    = inr (Errorf "marshaling melange configuration" err).
Proof.
  revert hashes.
  induction configs as [|c configs IH]; intros hashes Hnot; simpl.
  - destruct Hnot. constructor.
  - destruct (yamlMarshal c) as [data [err|]] eqn:Hc; [by eexists|].
    apply IH. intros Hall. apply Hnot. constructor; [|done].
    unfold serializes. by rewrite Hc.
Qed.

Lemma generateDocumentID_ok configs :
  Forall serializes configs ->
  generateDocumentID configs
  = (String.append "vex-"
       (hex (Sha256.sum256
               (list_byte_of_string
                  (Join (sort_Strings (configHash <$> configs)) ":")))),
     None).
Proof.
  intros Hall. unfold generateDocumentID. by rewrite hashConfigs_ok.
Qed.

Lemma generateDocumentID_err configs :
  ~ Forall serializes configs ->
  exists err,
    generateDocumentID configs
    = (EmptyString, Some (Errorf "marshaling melange configuration" err)).
Proof.
  intros Hnot. unfold generateDocumentID.
  destruct (hashConfigs_err configs [] Hnot) as [err ->]. by eexists.
Qed.

(** The identity generation fails exactly when some configuration of the
    batch cannot be serialized. *)
Lemma generateDocumentID_fails_iff configs :
  (generateDocumentID configs).2 <> None
  <-> exists c, c ∈ configs /\ (yamlMarshal c).2 <> None.
Proof.
  destruct (decide (Forall serializes configs)) as [Hall|Hnot].
  - rewrite generateDocumentID_ok by done. simpl. split; [done|].
    intros (c & Hc & Hbad). rewrite Forall_forall in Hall.
    exfalso. by apply Hbad, Hall.
  - destruct (generateDocumentID_err configs Hnot) as [err ->]. simpl.
    split; [|done]. intros _.
    apply not_Forall_Exists, Exists_exists in Hnot; [done|apply _].
Qed.

(** C4. When every configuration of the batch serializes, the identifier
    is the text vex- followed by the hexadecimal SHA-256 digest of the
    string made by: serializing each configuration, taking the hexadecimal
    SHA-256 digest of each serialization, sorting these digests in
    lexicographic order and joining them with a colon. *)
Theorem generateDocumentID_spec (configs : list build.Configuration) :
  (forall c, c ∈ configs -> (yamlMarshal c).2 = None) ->
  let digests :=
    (fun c => hex (Sha256.sum256 (yamlMarshal c).1)) <$> configs in
  let sorted := sort_Strings digests in
  sorted ≡ₚ digests
  /\ StronglySorted string_le sorted
  /\ generateDocumentID configs
     = (String.append "vex-"
          (hex (Sha256.sum256 (list_byte_of_string (Join sorted ":")))),
        None).
Proof.
  intros Hall digests sorted.
  split; [apply sort_Strings_perm|].
  split; [apply sort_Strings_sorted|].
  apply generateDocumentID_ok, Forall_forall, Hall.
Qed.

(** C5. The identifier does not depend on the order of the batch: two
    batches that are rearrangements of each other, in particular the same
    batch twice, get the same identifier string, and one fails exactly
    when the other does. *)
Theorem generateDocumentID_permutation
    (configs configs' : list build.Configuration) :
  configs ≡ₚ configs' ->
  (generateDocumentID configs).1 = (generateDocumentID configs').1
  /\ ((generateDocumentID configs).2 = None
      <-> (generateDocumentID configs').2 = None).
Proof.
  intros Hperm.
  destruct (decide (Forall serializes configs)) as [Hall|Hnot].
  - assert (Forall serializes configs') as Hall' by by rewrite <- Hperm.
    rewrite !generateDocumentID_ok by done. simpl.
    by rewrite (sort_Strings_Permutation (configHash <$> configs)
                  (configHash <$> configs')) by by rewrite Hperm.
  - assert (~ Forall serializes configs') as Hnot' by by rewrite <- Hperm.
    destruct (generateDocumentID_err configs Hnot) as [err ->].
    destruct (generateDocumentID_err configs' Hnot') as [err' ->].
    done.
Qed.

(** C10. For the empty batch the identifier is produced without error: it
    is vex- followed by the hexadecimal SHA-256 digest of the empty string,
    the join of no hashes. *)
Theorem generateDocumentID_empty :
  Join [] ":" = EmptyString
  /\ generateDocumentID []
     = (String.append "vex-"
          (hex (Sha256.sum256 (list_byte_of_string EmptyString))),
        None)
  /\ generateDocumentID []
     = ("vex-e3b0c44298fc1c149afbf4c8996fb92427ae41e4649b934ca495991b7852b855",
        None).
Proof. repeat split; vm_compute; reflexivity. Qed.

(** *** The merge driver *)

(** The merge routine returns a document or an error: without an error
    its document is not nil. *)
Hypothesis Merge_contract :
  forall opts docs, (Merge opts docs).2 = None -> (Merge opts docs).1 <> None.

(** C9. The driver returns the nil document and an error when the identity
    generation fails, which happens exactly when some configuration of the
    batch cannot be serialized, and when the merge fails; otherwise it
    returns the merged document, which is not nil, and no error.  An error
    never comes with a document. *)
Theorem FromPackageConfiguration_all_or_nothing
    (clock : nat -> Time) (vexCfg : Config)
    (buildCfg : list build.Configuration) :
  let r := FromPackageConfiguration clock vexCfg buildCfg in
  let id := generateDocumentID buildCfg in
  let merged :=
    Merge {| ctl.DocumentID := id.1;
             ctl.Author := Author vexCfg;
             ctl.AuthorRole := AuthorRole vexCfg |}
          (subdocuments clock 0 vexCfg buildCfg []) in
  (id.2 <> None -> r.1 = None /\ r.2 <> None)
  /\ (id.2 = None -> merged.2 <> None -> r.1 = None /\ r.2 <> None)
  /\ (id.2 = None -> merged.2 = None ->
      r.1 <> None /\ r.1 = merged.1 /\ r.2 = None)
  /\ (r.2 <> None -> r.1 = None)
  /\ ((exists c, c ∈ buildCfg /\ (yamlMarshal c).2 <> None) ->
      r.1 = None /\ r.2 <> None)
  /\ (id.2 <> None <->
      exists c, c ∈ buildCfg /\ (yamlMarshal c).2 <> None).
Proof.
  intros r id merged.
  assert (id.2 <> None -> r.1 = None /\ r.2 <> None) as Hid.
  { subst r id. unfold FromPackageConfiguration.
    destruct (generateDocumentID buildCfg) as [i [err|]]; done. }
  assert (id.2 = None -> merged.2 <> None -> r.1 = None /\ r.2 <> None)
    as Hmerge.
  { subst r id merged. unfold FromPackageConfiguration.
    destruct (generateDocumentID buildCfg) as [i [err|]]; [done|]. simpl.
    destruct (Merge _ _) as [doc [err|]]; done. }
  assert (id.2 = None -> merged.2 = None ->
          r.1 <> None /\ r.1 = merged.1 /\ r.2 = None) as Hok.
  { subst r id merged. unfold FromPackageConfiguration.
    destruct (generateDocumentID buildCfg) as [i [err|]]; [done|]. simpl.
    intros _ Hm. pose proof (Merge_contract _ _ Hm) as Hdoc.
    destruct (Merge _ _) as [doc [err|]]; done. }
  split; [exact Hid|]. split; [exact Hmerge|]. split; [exact Hok|].
  split; [|split].
  - intros Herr.
    destruct (decide (id.2 = None)) as [Hi|Hi]; [|by apply Hid].
    destruct (decide (merged.2 = None)) as [Hm|Hm]; [|by apply Hmerge].
    destruct (Hok Hi Hm) as (_ & _ & Hr). done.
  - intros Hbad. by apply Hid, generateDocumentID_fails_iff.
  - apply generateDocumentID_fails_iff.
Qed.

(** *** The reconciler, read on the two maps *)

Lemma elem_of_map_pairs {A : Type} (m : gmap string (list A))
    (k : string) (a : A) :
  (k, a) ∈ (map_to_list m ≫= fun '(k, vs) => (fun v => (k, v)) <$> vs)
  <-> exists vs, m !! k = Some vs /\ a ∈ vs.
Proof.
  rewrite list_elem_of_bind. split.
  - intros ([k' vs] & Hin & Hm). apply elem_of_map_to_list in Hm.
    apply list_elem_of_fmap in Hin as (v & [= -> ->] & Hv). by exists vs.
  - intros (vs & Hm & Ha). exists (k, vs). split.
    + apply list_elem_of_fmap. by exists a.
    + by apply elem_of_map_to_list.
Qed.

Lemma filter_fmap_compose {A B : Type} (f : A -> B) (P : B -> Prop)
    `{!forall y, Decision (P y)} (l : list A) :
  filter P (f <$> l) = f <$> filter (fun x => P (f x)) l.
Proof.
  induction l as [|x l IH]; [done|].
  rewrite fmap_cons, !filter_cons, IH. by destruct (decide (P (f x))).
Qed.

Lemma notAffectedVulns_of_advisories advisories purls :
  notAffectedVulns_of (statementsFromAdvisories advisories purls)
  = notAffectedIDs advisories.
Proof.
  apply set_eq. intros v.
  rewrite elem_of_notAffectedVulns_of. unfold notAffectedIDs.
  rewrite elem_of_list_to_set, list_elem_of_fmap. split.
  - intros (s & Hs & Hv & Hst).
    rewrite statementsFromAdvisories_pairs in Hs.
    apply list_elem_of_fmap in Hs as ([v' e] & -> & Hp).
    exists (v', e). split; [done|]. by apply list_elem_of_filter.
  - intros ([v' e] & -> & [Hst Hp]%list_elem_of_filter).
    exists (statementFromAdvisoryContent e v' purls). split; [|done].
    rewrite statementsFromAdvisories_pairs. apply list_elem_of_fmap.
    by exists (v', e).
Qed.

Lemma statementsFromConfiguration_pairs cfg ts purls :
  statementsFromConfiguration cfg ts purls
  ≡ₚ ((fun p => statementFromSecfixesItem p.1 p.2 purls)
        <$> filter (fun p => p.2 ∉ notAffectedIDs (build.Advisories_ cfg))
                   (secfixesPairs (build.Secfixes_ cfg)))
     ++ ((fun p => statementFromAdvisoryContent p.2 p.1 purls)
           <$> advisoryPairs (build.Advisories_ cfg)).
Proof.
  rewrite statementsFromConfiguration_perm, notAffectedVulns_of_advisories.
  rewrite statementsFromSecfixes_pairs, statementsFromAdvisories_pairs.
  by rewrite filter_fmap_compose.
Qed.

Lemma elem_of_notAffectedIDs advisories (v : string) :
  v ∈ notAffectedIDs advisories
  <-> exists entries e,
        advisories !! v = Some entries /\ e ∈ entries
        /\ build.Status e = vex.StatusNotAffected.
Proof.
  unfold notAffectedIDs, advisoryPairs.
  rewrite elem_of_list_to_set, list_elem_of_fmap. split.
  - intros ([v' e] & -> & [Hst Hp]%list_elem_of_filter).
    apply elem_of_map_pairs in Hp as (entries & Hm & He).
    by exists entries, e.
  - intros (entries & e & Hm & He & Hst). exists (v, e). split; [done|].
    apply list_elem_of_filter. split; [done|].
    apply elem_of_map_pairs. by exists entries.
Qed.

(** X1. The reconciled list, read on the two maps of the package: up to
    order it is one legacy statement per (version, ID) pair of the secfixes
    whose ID no advisory record declares not_affected, followed by one
    statement per advisory record. *)
Theorem statementsFromConfiguration_from_maps
    (cfg : build.Configuration) (ts : Time) (purls : list string) :
  (forall v : string,
     v ∈ notAffectedIDs (build.Advisories_ cfg)
     <-> exists entries e,
           build.Advisories_ cfg !! v = Some entries /\ e ∈ entries
           /\ build.Status e = vex.StatusNotAffected)
  /\ statementsFromConfiguration cfg ts purls
     ≡ₚ ((fun p => statementFromSecfixesItem p.1 p.2 purls)
           <$> filter (fun p => p.2 ∉ notAffectedIDs (build.Advisories_ cfg))
                      (secfixesPairs (build.Secfixes_ cfg)))
        ++ ((fun p => statementFromAdvisoryContent p.2 p.1 purls)
              <$> advisoryPairs (build.Advisories_ cfg)).
Proof.
  split; [apply elem_of_notAffectedIDs|apply statementsFromConfiguration_pairs].
Qed.

(** X2. When no advisory record of the package has status not_affected,
    nothing is dropped: the reconciled list is, up to order, every secfixes
    statement followed by every advisory statement. *)
Theorem statementsFromConfiguration_nothing_dropped
    (cfg : build.Configuration) (ts : Time) (purls : list string) :
  (forall v entries e,
     build.Advisories_ cfg !! v = Some entries -> e ∈ entries ->
     build.Status e <> vex.StatusNotAffected) ->
  statementsFromConfiguration cfg ts purls
  ≡ₚ statementsFromSecfixes (build.Secfixes_ cfg) purls
     ++ statementsFromAdvisories (build.Advisories_ cfg) purls.
Proof.
  intros Hnone. rewrite statementsFromConfiguration_perm.
  apply Permutation_app; [|done].
  rewrite notAffectedVulns_of_advisories.
  assert (forall l : list vex.Statement,
            filter (fun s => vex.Vulnerability s
                             ∉ notAffectedIDs (build.Advisories_ cfg)) l = l)
    as ->; [|done].
  induction l as [|s l IH]; [done|].
  rewrite filter_cons_True, IH; [done|].
  intros (entries & e & Hm & He & Hst)%elem_of_notAffectedIDs.
  by apply (Hnone _ _ _ Hm He).
Qed.

(** X3. The document timestamp only orders the statements: two calls that
    differ in it return rearrangements of the same statements. *)
Theorem statementsFromConfiguration_timestamp
    (cfg : build.Configuration) (ts ts' : Time) (purls : list string) :
  statementsFromConfiguration cfg ts purls
  ≡ₚ statementsFromConfiguration cfg ts' purls.
Proof. by rewrite !statementsFromConfiguration_perm. Qed.

(** X4. The reconciler returns no statement exactly when the package has
    no (version, ID) pair in its secfixes and no advisory record. *)
Theorem statementsFromConfiguration_nil
    (cfg : build.Configuration) (ts : Time) (purls : list string) :
  statementsFromConfiguration cfg ts purls = []
  <-> secfixesPairs (build.Secfixes_ cfg) = []
      /\ advisoryPairs (build.Advisories_ cfg) = [].
Proof.
  rewrite <- Permutation_nil_r, statementsFromConfiguration_pairs.
  rewrite Permutation_nil_r. split.
  - intros [Hsec Hadv]%app_eq_nil.
    apply fmap_nil_inv in Hadv. split; [|done].
    apply fmap_nil_inv in Hsec. revert Hsec.
    unfold notAffectedIDs. rewrite Hadv. simpl.
    destruct (secfixesPairs (build.Secfixes_ cfg)) as [|p l]; [done|].
    rewrite filter_cons_True; [done|]. apply not_elem_of_empty.
  - intros [-> ->]. done.
Qed.

Lemma length_filter_two {A B : Type} `{!EqDecision B} (f : A -> B)
    (l : list A) (x y : A) (t : B) :
  x ∈ l -> y ∈ l -> x <> y -> f x = t -> f y = t ->
  2 <= length (filter (fun s => s = t) (f <$> l)).
Proof.
  intros Hx Hy Hne Hfx Hfy.
  apply elem_of_Permutation in Hx as [k Hk].
  rewrite Hk in Hy. apply elem_of_cons in Hy as [->|Hy]; [done|].
  apply elem_of_Permutation in Hy as [k' Hk'].
  rewrite Hk, Hk', !fmap_cons.
  rewrite !filter_cons_True by done. simpl. lia.
Qed.

(** X5. Duplicate fixed statements are not weeded out: when two different
    versions, neither of them 0, both list a vulnerability ID that no
    advisory record declares not_affected, the reconciled list holds the
    fixed statement of that ID at least twice. *)
Theorem statementsFromConfiguration_keeps_duplicates
    (cfg : build.Configuration) (ts : Time) (purls : list string)
    (ver1 ver2 v : string) (vs1 vs2 : list string) :
  build.Secfixes_ cfg !! ver1 = Some vs1 -> v ∈ vs1 ->
  build.Secfixes_ cfg !! ver2 = Some vs2 -> v ∈ vs2 ->
  ver1 <> ver2 -> ver1 <> "0" -> ver2 <> "0" ->
  v ∉ notAffectedIDs (build.Advisories_ cfg) ->
  2 <= length
         (filter
            (fun s =>
               s = {| vex.Vulnerability := v; vex.Status := vex.StatusFixed;
                      vex.Justification := ""; vex.ActionStatement := "";
                      vex.ImpactStatement := ""; vex.Products := purls;
                      vex.Timestamp := None |})
            (statementsFromConfiguration cfg ts purls)).
Proof.
  intros Hm1 Hv1 Hm2 Hv2 Hne H1 H2 Hv.
  rewrite statementsFromConfiguration_pairs, filter_app, length_app.
  etrans; [|apply Nat.le_add_r].
  apply (length_filter_two _ _ (ver1, v) (ver2, v)).
  - apply list_elem_of_filter. split; [done|].
    apply elem_of_map_pairs. by exists vs1.
  - apply list_elem_of_filter. split; [done|].
    apply elem_of_map_pairs. by exists vs2.
  - congruence.
  - simpl. unfold statementFromSecfixesItem, determineStatus.
    by rewrite decide_False.
  - simpl. unfold statementFromSecfixesItem, determineStatus.
    by rewrite decide_False.
Qed.

(** *** The product extractor, read on the purl references *)

Lemma extractRefs_app vexCfg refs1 refs2 purls :
  extractRefs vexCfg (refs1 ++ refs2) purls
  = match extractRefs vexCfg refs1 purls with
    | inl purls' => extractRefs vexCfg refs2 purls'
    | inr err => inr err
    end.
Proof.
  revert purls. induction refs1 as [|ref refs1 IH]; intros purls; simpl; [done|].
  destruct (decide (spdx.Type_ ref <> "purl")); [by apply IH|].
  destruct (FromString (spdx.Locator ref)) as [p [err|]]; [done|].
  destruct (decide (purl.Namespace p = Distro vexCfg)); by apply IH.
Qed.

Lemma extractPackages_flat vexCfg pkgs purls :
  extractPackages vexCfg pkgs purls
  = extractRefs vexCfg (pkgs ≫= spdx.ExternalRefs) purls.
Proof.
  revert purls. induction pkgs as [|pkg pkgs IH]; intros purls; [done|].
  rewrite bind_cons, extractRefs_app. simpl.
  destruct (extractRefs vexCfg (spdx.ExternalRefs pkg) purls); [apply IH|done].
Qed.

Lemma extractRefs_filter vexCfg refs purls :
  extractRefs vexCfg refs purls = extractRefs vexCfg (filter isPurl refs) purls.
Proof.
  revert purls. induction refs as [|ref refs IH]; intros purls; [done|].
  destruct (decide (spdx.Type_ ref <> "purl")) as [Hty|Hty].
  - rewrite (filter_cons_False isPurl) by exact Hty. simpl.
    rewrite (decide_True (P := spdx.Type_ ref <> "purl")) by done. apply IH.
  - rewrite (filter_cons_True isPurl) by (by apply dec_stable). simpl.
    rewrite !(decide_False (P := spdx.Type_ ref <> "purl")) by done.
    destruct (FromString (spdx.Locator ref)) as [p [err|]]; [done|].
    destruct (decide (purl.Namespace p = Distro vexCfg)); apply IH.
Qed.

Lemma extractSBOMPurls_purlRefs vexCfg sbom :
  extractSBOMPurls vexCfg sbom
  = match extractRefs vexCfg (purlRefs sbom) [] with
    | inr err => (None, Some err)
    | inl purls => (Some purls, None)
    end.
Proof.
  unfold extractSBOMPurls, purlRefs.
  by rewrite extractPackages_flat, extractRefs_filter.
Qed.

Lemma isPurl_purlRefs sbom : Forall isPurl (purlRefs sbom).
Proof.
  apply Forall_forall. intros ref Hin.
  by apply list_elem_of_filter in Hin as [? _].
Qed.

Lemma filter_isPurl_id (refs : list spdx.ExternalRef) :
  Forall isPurl refs -> filter isPurl refs = refs.
Proof.
  induction 1 as [|ref refs Href _ IH]; [done|].
  by rewrite filter_cons_True, IH.
Qed.

(** X6. The product extractor reads nothing but the external references of
    type purl, in document order: two SBOMs with the same such references,
    however grouped into packages and whatever their other references,
    give the same result. *)
Theorem extractSBOMPurls_only_purl_refs
    (vexCfg : Config) (sbom sbom' : spdx.Document) :
  purlRefs sbom = purlRefs sbom' ->
  extractSBOMPurls vexCfg sbom = extractSBOMPurls vexCfg sbom'.
Proof. intros Heq. by rewrite !extractSBOMPurls_purlRefs, Heq. Qed.

(** X7. The error of the product extractor is that of the first purl
    reference, in document order, whose locator does not parse: the parser's
    error wrapped with the context [parsing purl: <locator>]. *)
Theorem extractSBOMPurls_first_error
    (vexCfg : Config) (sbom : spdx.Document)
    (ok rest : list spdx.ExternalRef) (ref : spdx.ExternalRef) (err : error) :
  purlRefs sbom = ok ++ ref :: rest ->
  (forall r, r ∈ ok -> (FromString (spdx.Locator r)).2 = None) ->
  (FromString (spdx.Locator ref)).2 = Some err ->
  extractSBOMPurls vexCfg sbom
  = (None,
     Some (Errorf (String.append "parsing purl: " (spdx.Locator ref)) err)).
Proof.
  intros Hsplit Hok Hbad.
  pose proof (isPurl_purlRefs sbom) as Hpurl.
  rewrite Hsplit in Hpurl.
  apply Forall_app in Hpurl as [Hpok Hpref].
  apply Forall_cons in Hpref as [Hpref _].
  rewrite extractSBOMPurls_purlRefs, Hsplit, extractRefs_app.
  rewrite extractRefs_ok
    by (rewrite filter_isPurl_id by done; by apply Forall_forall).
  simpl.
  rewrite (decide_False (P := spdx.Type_ ref <> "purl"))
    by (intros Hne; by apply Hne).
  destruct (FromString (spdx.Locator ref)) as [p o]. simpl in Hbad.
  by rewrite Hbad.
Qed.

(** X8. When the product extractor returns a list, it returns no error,
    every purl reference of the SBOM has parsed, every purl of the list has
    the configured distro as namespace, and the list is no longer than the
    purl references are many. *)
Theorem extractSBOMPurls_result
    (vexCfg : Config) (sbom : spdx.Document)
    (purls : list purl.PackageURL) (e : option error) :
  extractSBOMPurls vexCfg sbom = (Some purls, e) ->
  e = None
  /\ (forall ref, ref ∈ purlRefs sbom ->
                  (FromString (spdx.Locator ref)).2 = None)
  /\ Forall (fun p => purl.Namespace p = Distro vexCfg) purls
  /\ length purls <= length (purlRefs sbom).
Proof.
  intros Hres.
  destruct (decide (Forall parses (purlRefs sbom))) as [Hall|Hnot].
  - unfold extractSBOMPurls in Hres. unfold purlRefs in Hall.
    rewrite extractPackages_ok in Hres by done.
    injection Hres as <- <-.
    split; [done|]. split; [by apply Forall_forall|]. split.
    + apply Forall_forall. intros p Hp.
      by apply list_elem_of_filter in Hp as [? _].
    + etrans; [apply length_filter|]. by rewrite length_fmap.
  - apply not_Forall_Exists in Hnot; [|apply _].
    unfold extractSBOMPurls in Hres.
    destruct (extractPackages_err vexCfg (spdx.Packages sbom) [] Hnot)
      as [err Herr].
    by rewrite Herr in Hres.
Qed.

(** *** The shape of digests and of hexadecimal text *)

Lemma be_bytes_length (n : nat) (x : Z) : length (Sha256.be_bytes n x) = n.
Proof. induction n as [|n IH]; simpl; [done|]. by rewrite IH. Qed.

Lemma round_length (st : list Z) (kw : Z * Z) :
  length st = 8 -> length (Sha256.round st kw) = 8.
Proof.
  destruct st as [|a [|b [|c [|d [|e [|f [|g [|h [|]]]]]]]]]; try discriminate.
  intros _. reflexivity.
Qed.

Lemma fold_round_length (l : list (Z * Z)) (st : list Z) :
  length st = 8 -> length (fold_left Sha256.round l st) = 8.
Proof.
  revert st. induction l as [|kw l IH]; intros st Hst; [done|].
  simpl fold_left. by apply IH, round_length.
Qed.

Lemma compress_length (st block : list Z) :
  length st = 8 -> length (Sha256.compress st block) = 8.
Proof.
  intros Hst. unfold Sha256.compress.
  rewrite length_zip_with, fold_round_length by done. lia.
Qed.

Lemma blocks_length (fuel : nat) (ws st : list Z) :
  length st = 8 -> length (Sha256.blocks fuel ws st) = 8.
Proof.
  revert ws st. induction fuel as [|fuel IH]; intros ws st Hst; [done|].
  simpl. destruct ws; [done|]. by apply IH, compress_length.
Qed.

Lemma length_concat_be_bytes (st : list Z) :
  length (concat (map (Sha256.be_bytes 4) st)) = 4 * length st.
Proof.
  induction st as [|x st IH]; [done|].
  cbn [map concat]. rewrite length_app, be_bytes_length, IH. simpl. lia.
Qed.

(** A SHA-256 digest has 32 bytes. *)
Lemma sum256_length (data : bytes) : length (Sha256.sum256 data) = 32.
Proof.
  unfold Sha256.sum256. rewrite length_map, length_concat_be_bytes.
  by rewrite blocks_length.
Qed.

Lemma Z_of_byte_range (x : Byte.byte) : (0 <= Z_of_byte x < 256)%Z.
Proof.
  unfold Z_of_byte. pose proof (Byte.to_N_bounded x). lia.
Qed.




Lemma hex_digit_lower (n : Z) :
  (0 <= n < 16)%Z -> lower_hex (hex_digit n) = true.
Proof.
  intros Hn.
  assert (Forall (fun k => lower_hex (hex_digit k) = true) (seqZ 0 16))
    as Hall by (vm_compute; repeat constructor).
  rewrite Forall_forall in Hall. apply Hall, elem_of_seqZ. lia.
Qed.

Lemma hex_length (b : bytes) : String.length (hex b) = 2 * length b.
Proof. induction b as [|x b IH]; simpl; [done|]. rewrite IH. lia. Qed.

Lemma hex_lower (b : bytes) :
  Forall (fun c => lower_hex c = true) (list_ascii_of_string (hex b)).
Proof.
  induction b as [|x b IH]; simpl; [constructor|].
  pose proof (Z_of_byte_range x).
  constructor; [|constructor; [|done]]; apply hex_digit_lower.
  - split; [apply Z.div_pos; lia|apply Z.div_lt_upper_bound; lia].
  - apply Z.mod_pos_bound. lia.
Qed.



(** *** The joined hashes determine the hashes *)









(** *** The document identity: shape, sensitivity, first error *)

(** X9. An identifier that is returned without error is the text vex-
    followed by 64 lowercase hexadecimal digits; with an error the string
    returned is empty. *)
Theorem generateDocumentID_format (configs : list build.Configuration) :
  ((generateDocumentID configs).2 = None ->
   exists h : string,
     (generateDocumentID configs).1 = String.append "vex-" h
     /\ String.length h = 64
     /\ Forall (fun c => lower_hex c = true) (list_ascii_of_string h))
  /\ ((generateDocumentID configs).2 <> None ->
      (generateDocumentID configs).1 = EmptyString).
Proof.
  destruct (decide (Forall serializes configs)) as [Hall|Hnot].
  - rewrite generateDocumentID_ok by done. simpl. split; [|done].
    intros _. eexists. split; [done|]. split; [|apply hex_lower].
    by rewrite hex_length, sum256_length.
  - destruct (generateDocumentID_err configs Hnot) as [err ->]. simpl.
    split; done.
Qed.


Lemma hashConfigs_app ok rest hashes :
  Forall serializes ok ->
  hashConfigs (ok ++ rest) hashes
  = hashConfigs rest (hashes ++ (configHash <$> ok)).
Proof.
  revert hashes. induction ok as [|c ok IH]; intros hashes Hok.
  - simpl. by rewrite app_nil_r.
  - apply Forall_cons in Hok as [Hc Hok]. simpl.
    unfold serializes in Hc. unfold configHash at 1.
    destruct (yamlMarshal c) as [data [err|]]; [done|].
    rewrite IH by done. by rewrite <- app_assoc.
Qed.

Lemma generateDocumentID_err_at ok c rest err :
  Forall serializes ok ->
  (yamlMarshal c).2 = Some err ->
  generateDocumentID (ok ++ c :: rest)
  = (EmptyString, Some (Errorf "marshaling melange configuration" err)).
Proof.
  intros Hok Hbad. unfold generateDocumentID.
  rewrite hashConfigs_app by done. simpl.
  destruct (yamlMarshal c) as [data o]. simpl in Hbad. by rewrite Hbad.
Qed.

(** X11. The error of the identity generation is that of the first
    configuration of the batch, in list order, that does not serialize: the
    serializer's error wrapped with the context [marshaling melange
    configuration], together with the empty string. *)
Theorem generateDocumentID_first_error
    (ok rest : list build.Configuration) (c : build.Configuration)
    (err : error) :
  (forall c', c' ∈ ok -> (yamlMarshal c').2 = None) ->
  (yamlMarshal c).2 = Some err ->
  generateDocumentID (ok ++ c :: rest)
  = (EmptyString, Some (Errorf "marshaling melange configuration" err)).
Proof.
  intros Hok%Forall_forall Hbad. by apply generateDocumentID_err_at.
Qed.

(** *** The merge driver: sub-documents and errors *)

Lemma subdocuments_imap clock i vexCfg buildCfg docs :
  subdocuments clock i vexCfg buildCfg docs
  = docs ++ imap (fun k conf => subdocumentOf vexCfg (clock (i + k)) conf)
                 buildCfg.
Proof.
  revert i docs. induction buildCfg as [|conf rest IH]; intros i docs.
  - simpl. by rewrite app_nil_r.
  - simpl subdocuments. rewrite IH, imap_cons, <- app_assoc. simpl.
    rewrite Nat.add_0_r. do 2 f_equal.
    apply imap_ext. intros k c _. simpl. f_equal. f_equal. lia.
Qed.

Lemma statementsFromConfiguration_elem_Products cfg ts purls s :
  s ∈ statementsFromConfiguration cfg ts purls -> vex.Products s = purls.
Proof.
  rewrite statementsFromConfiguration_perm.
  rewrite elem_of_app, list_elem_of_filter.
  intros [[_ Hs]|Hs].
  - by apply statementsFromSecfixes_fields in Hs as [_ ?].
  - by apply statementsFromAdvisories_fields in Hs as [_ ?].
Qed.

(** X12. The driver builds one sub-document per configuration, in batch
    order: the sub-document at position i carries the time read at its
    creation and the statements reconciled for the i-th configuration, with
    that time as document timestamp and with the configuration's product
    identifiers for the configured distro. *)
Theorem subdocuments_one_per_configuration
    (clock : nat -> Time) (vexCfg : Config)
    (buildCfg : list build.Configuration) :
  length (subdocuments clock 0 vexCfg buildCfg []) = length buildCfg
  /\ forall (i : nat) (conf : build.Configuration),
       buildCfg !! i = Some conf ->
       exists doc,
         subdocuments clock 0 vexCfg buildCfg [] !! i = Some doc
         /\ vex.doc_Timestamp doc = Some (clock i)
         /\ vex.doc_Statements doc
            = statementsFromConfiguration conf (clock i)
                (PackageURLs conf (Distro vexCfg)).
Proof.
  rewrite subdocuments_imap. simpl. split; [apply length_imap|].
  intros i conf Hi. exists (subdocumentOf vexCfg (clock i) conf).
  by rewrite list_lookup_imap, Hi.
Qed.

(** X13. No statement crosses packages: every statement of the sub-document
    at position i has as products the product identifiers of the i-th
    configuration. *)
Theorem subdocuments_products
    (clock : nat -> Time) (vexCfg : Config)
    (buildCfg : list build.Configuration)
    (i : nat) (conf : build.Configuration) (doc : vex.VEX)
    (s : vex.Statement) :
  buildCfg !! i = Some conf ->
  subdocuments clock 0 vexCfg buildCfg [] !! i = Some doc ->
  s ∈ vex.doc_Statements doc ->
  vex.Products s = PackageURLs conf (Distro vexCfg).
Proof.
  intros Hconf Hdoc Hs.
  rewrite subdocuments_imap in Hdoc. simpl in Hdoc.
  rewrite list_lookup_imap, Hconf in Hdoc. injection Hdoc as <-.
  by apply statementsFromConfiguration_elem_Products in Hs.
Qed.

(** X14. When a configuration does not serialize, the driver returns the
    nil document and the error of the first such configuration in batch
    order, wrapped twice: [generating doc ID] around [marshaling melange
    configuration] around the serializer's error. *)
Theorem FromPackageConfiguration_serialization_error
    (clock : nat -> Time) (vexCfg : Config)
    (ok rest : list build.Configuration) (c : build.Configuration)
    (err : error) :
  (forall c', c' ∈ ok -> (yamlMarshal c').2 = None) ->
  (yamlMarshal c).2 = Some err ->
  FromPackageConfiguration clock vexCfg (ok ++ c :: rest)
  = (None,
     Some (Errorf "generating doc ID"
             (Errorf "marshaling melange configuration" err))).
Proof.
  intros Hok%Forall_forall Hbad. unfold FromPackageConfiguration.
  by rewrite (generateDocumentID_err_at ok c rest err).
Qed.

(** X15. When every configuration serializes, the driver hands the merge
    routine the generated identifier, the configured author and author role
    and the sub-documents, and returns what the routine returns; but when
    the routine returns an error, the driver returns that error wrapped with
    [merging vex documents] and the nil document, whatever document came
    with the error. *)
Theorem FromPackageConfiguration_merge
    (clock : nat -> Time) (vexCfg : Config)
    (buildCfg : list build.Configuration) :
  (forall c, c ∈ buildCfg -> (yamlMarshal c).2 = None) ->
  let merged :=
    Merge {| ctl.DocumentID := (generateDocumentID buildCfg).1;
             ctl.Author := Author vexCfg;
             ctl.AuthorRole := AuthorRole vexCfg |}
          (imap (fun i conf => subdocumentOf vexCfg (clock i) conf) buildCfg) in
  FromPackageConfiguration clock vexCfg buildCfg
  = match merged.2 with
    | Some err => (None, Some (Errorf "merging vex documents" err))
    | None => (merged.1, None)
    end.
Proof.
  intros Hall%Forall_forall merged. subst merged.
  unfold FromPackageConfiguration.
  rewrite subdocuments_imap, generateDocumentID_ok by done. simpl.
  by destruct (Merge _ _) as [doc [err|]].
Qed.

(** X16. [parseSBOM] returns a document exactly when it returns no error,
    which is when the file is read and its content decoded without error; a
    read error is reported, wrapped with [opening SBOM file], without
    regard to the decoder, and a decoding error wrapped with [unmarshaling
    SBOM data]. *)
Theorem parseSBOM_all_or_nothing (sbomPath : string) :
  ((parseSBOM sbomPath).1 <> None <-> (parseSBOM sbomPath).2 = None)
  /\ ((parseSBOM sbomPath).2 = None
      <-> (ReadFile sbomPath).2 = None
          /\ (Unmarshal (ReadFile sbomPath).1 (spdx.mkDocument [])).2 = None)
  /\ (forall err,
        (ReadFile sbomPath).2 = Some err ->
        parseSBOM sbomPath = (None, Some (Errorf "opening SBOM file" err)))
  /\ (forall err,
        (ReadFile sbomPath).2 = None ->
        (Unmarshal (ReadFile sbomPath).1 (spdx.mkDocument [])).2 = Some err ->
        parseSBOM sbomPath
        = (None, Some (Errorf "unmarshaling SBOM data" err))).
Proof.
  unfold parseSBOM.
  destruct (ReadFile sbomPath) as [data [rerr|]]; simpl.
  - repeat split; try done.
    + by intros [? _].
    + by intros err [= ->].
  - destruct (Unmarshal data (spdx.mkDocument [])) as [doc [uerr|]]; simpl.
    + repeat split; try done.
      * by intros [_ ?].
      * by intros err _ [= ->].
    + repeat split; done.
Qed.

End Vex.

(** ** The properties on the concrete collaborators and scenarios *)

(** Test vectors of SHA-256 (FIPS 180-4). *)
Example sha256_empty :
  hex (Sha256.sum256 []) =
  "e3b0c44298fc1c149afbf4c8996fb92427ae41e4649b934ca495991b7852b855"%string.
Proof. vm_compute. reflexivity. Qed.

Example sha256_abc :
  hex (Sha256.sum256 (list_byte_of_string "abc")) =
  "ba7816bf8f01cfea414140de5dae2223b00361a396177a9cb410ff61f20015ad"%string.
Proof. vm_compute. reflexivity. Qed.

Example sha256_two_blocks :
  hex (Sha256.sum256 (list_byte_of_string
         "abcdbcdecdefdefgefghfghighijhijkijkljklmklmnlmnomnopnopq")) =
  "248d6a61d20638b8e5c026930c3e6039a33ce45964ff2167f6ecedd419db06c1"%string.
Proof. vm_compute. reflexivity. Qed.

Lemma statementsFromSecfixes_one_per_pair_witness :
  (forall (V : Type) (m : gmap string V), rangeListed V m ≡ₚ map_to_list m)
  /\ statementsFromSecfixes rangeListed (build.Secfixes_ scenarioA) purlsWolfi
     ≡ₚ (fun p => statementFromSecfixesItem p.1 p.2 purlsWolfi)
          <$> secfixesPairs (build.Secfixes_ scenarioA).
Proof.
  split; [intros; reflexivity|].
  apply (statementsFromSecfixes_one_per_pair rangeListed).
  intros; reflexivity.
Defined.

Lemma statementsFromAdvisories_one_per_record_witness :
  (forall (V : Type) (m : gmap string V), rangeListed V m ≡ₚ map_to_list m)
  /\ statementsFromAdvisories rangeListed
       (build.Advisories_ (scenarioB "affected" 5%Z)) purlsWolfi
     ≡ₚ (fun p => statementFromAdvisoryContent p.2 p.1 purlsWolfi)
          <$> advisoryPairs (build.Advisories_ (scenarioB "affected" 5%Z)).
Proof.
  split; [intros; reflexivity|].
  apply (statementsFromAdvisories_one_per_record rangeListed).
  intros; reflexivity.
Defined.

Lemma statementsFromConfiguration_suppression_witness :
  (forall stmts ts, sortByVulnerability stmts ts ≡ₚ stmts)
  /\ (forall a,
        a ∈ statementsFromAdvisories rangeListed
              (build.Advisories_ (scenarioB "not_affected" 5%Z)) purlsWolfi ->
        a ∈ statementsFromConfiguration rangeListed sortByVulnerability
              (scenarioB "not_affected" 5%Z) 9%Z purlsWolfi).
Proof.
  split; [intros; apply merge_sort_Permutation|].
  apply (statementsFromConfiguration_suppression rangeListed
           sortByVulnerability).
  intros; apply merge_sort_Permutation.
Defined.

Lemma statementsFromConfiguration_products_witness :
  (forall stmts ts, sortByVulnerability stmts ts ≡ₚ stmts)
  /\ (forall s,
        s ∈ statementsFromConfiguration rangeListed sortByVulnerability
              scenarioA 9%Z purlsWolfi ->
        vex.Products s = purlsWolfi).
Proof.
  split; [intros; apply merge_sort_Permutation|].
  apply (statementsFromConfiguration_products rangeListed sortByVulnerability).
  intros; apply merge_sort_Permutation.
Defined.

Lemma scenarioB_reconciled_witness :
  (forall (V : Type) (m : gmap string V), rangeListed V m ≡ₚ map_to_list m)
  /\ (forall stmts ts, sortByVulnerability stmts ts ≡ₚ stmts)
  /\ statementsFromConfiguration rangeListed sortByVulnerability
       (scenarioB "affected" 5%Z) 9%Z purlsWolfi
     ≡ₚ [ {| vex.Vulnerability := "CVE-1"; vex.Status := "not_affected";
            vex.Justification := ""; vex.ActionStatement := "";
            vex.ImpactStatement := ""; vex.Products := purlsWolfi;
            vex.Timestamp := None |};
          {| vex.Vulnerability := "CVE-1"; vex.Status := "affected";
             vex.Justification := ""; vex.ActionStatement := "";
             vex.ImpactStatement := ""; vex.Products := purlsWolfi;
             vex.Timestamp := Some 5%Z |} ]
  /\ statementsFromConfiguration rangeListed sortByVulnerability
       (scenarioB "not_affected" 5%Z) 9%Z purlsWolfi
     = [ {| vex.Vulnerability := "CVE-1"; vex.Status := "not_affected";
            vex.Justification := ""; vex.ActionStatement := "";
            vex.ImpactStatement := ""; vex.Products := purlsWolfi;
            vex.Timestamp := Some 5%Z |} ].
Proof.
  split; [intros; reflexivity|].
  split; [intros; apply merge_sort_Permutation|].
  apply (scenarioB_reconciled rangeListed sortByVulnerability).
  - intros; reflexivity.
  - intros; apply merge_sort_Permutation.
Defined.

(** C1 as stated fails.  In scenario B, with the advisory status affected,
    the reconciled list does not hold a single statement for CVE-1: the
    legacy not_affected statement is kept next to the advisory's. *)
Lemma scenarioB_legacy_survives :
  ~ (length
       (filter (fun s => vex.Vulnerability s = "CVE-1")
          (statementsFromConfiguration rangeListed sortByVulnerability
             (scenarioB "affected" 5%Z) 9%Z purlsWolfi)) = 1
     /\ statementFromSecfixesItem "0" "CVE-1" purlsWolfi
        ∉ statementsFromConfiguration rangeListed sortByVulnerability
            (scenarioB "affected" 5%Z) 9%Z purlsWolfi).
Proof.
  intros [Hone _]. vm_compute in Hone. discriminate.
Qed.

Lemma extractSBOMPurls_spec_witness :
  (exists err, extractSBOMPurls parseApkPurl wolfi sbomMalformed
               = (None, Some err))
  /\ extractSBOMPurls parseApkPurl wolfi sbomParsed
     = (Some [ purl.mkPackageURL "apk" "wolfi" "foo" "" "";
               purl.mkPackageURL "apk" "wolfi" "bar" "" "" ],
        None).
Proof.
  split.
  - apply (extractSBOMPurls_spec parseApkPurl wolfi sbomMalformed)
      with (ref := spdx.mkExternalRef "PACKAGE_MANAGER" "not a purl" "purl").
    + vm_compute. right. left.
    + vm_compute. discriminate.
  - etrans.
    + apply (extractSBOMPurls_spec parseApkPurl wolfi sbomParsed).
      intros ref Hin. vm_compute in Hin.
      repeat (apply elem_of_cons in Hin as [->|Hin]; [reflexivity|]).
      by apply elem_of_nil in Hin.
    + vm_compute. reflexivity.
Defined.

Lemma generateDocumentID_spec_witness :
  (forall c, c ∈ [scenarioA; scenarioB "affected" 5%Z] ->
             (marshalIdentity c).2 = None)
  /\ generateDocumentID marshalIdentity [scenarioA; scenarioB "affected" 5%Z]
     = (String.append "vex-"
          (hex (Sha256.sum256
                  (list_byte_of_string
                     (Join (sort_Strings
                              ((fun c => hex (Sha256.sum256 (marshalIdentity c).1))
                                 <$> [scenarioA; scenarioB "affected" 5%Z]))
                           ":")))),
        None).
Proof.
  split; [intros; reflexivity|].
  apply (generateDocumentID_spec marshalIdentity).
  intros; reflexivity.
Defined.

Lemma generateDocumentID_permutation_witness :
  [scenarioA; scenarioB "affected" 5%Z] ≡ₚ [scenarioB "affected" 5%Z; scenarioA]
  /\ (generateDocumentID marshalNamed [scenarioA; scenarioB "affected" 5%Z]).1
     = (generateDocumentID marshalNamed [scenarioB "affected" 5%Z; scenarioA]).1.
Proof.
  split; [apply perm_swap|].
  apply (generateDocumentID_permutation marshalNamed).
  apply perm_swap.
Defined.

Lemma FromPackageConfiguration_all_or_nothing_witness :
  (forall opts docs,
     (mergeNonEmpty opts docs).2 = None -> (mergeNonEmpty opts docs).1 <> None)
  /\ ((FromPackageConfiguration rangeListed sortByVulnerability marshalNamed
         packageURL mergeNonEmpty tick wolfi []).2 <> None ->
      (FromPackageConfiguration rangeListed sortByVulnerability marshalNamed
         packageURL mergeNonEmpty tick wolfi []).1 = None).
Proof.
  assert (forall opts docs,
            (mergeNonEmpty opts docs).2 = None ->
            (mergeNonEmpty opts docs).1 <> None) as Hcontract.
  { intros opts [|d docs]; simpl; discriminate. }
  split; [exact Hcontract|].
  apply (FromPackageConfiguration_all_or_nothing rangeListed
           sortByVulnerability marshalNamed packageURL mergeNonEmpty
           Hcontract tick wolfi []).
Defined.


(** The further properties on the concrete collaborators. *)

Lemma statementsFromConfiguration_from_maps_witness :
  (forall (V : Type) (m : gmap string V), rangeListed V m ≡ₚ map_to_list m)
  /\ (forall stmts ts, sortByVulnerability stmts ts ≡ₚ stmts)
  /\ statementsFromConfiguration rangeListed sortByVulnerability
       (scenarioB "not_affected" 5%Z) 9%Z purlsWolfi
     ≡ₚ ((fun p => statementFromSecfixesItem p.1 p.2 purlsWolfi)
           <$> filter
                 (fun p =>
                    p.2 ∉ notAffectedIDs
                            (build.Advisories_ (scenarioB "not_affected" 5%Z)))
                 (secfixesPairs
                    (build.Secfixes_ (scenarioB "not_affected" 5%Z))))
        ++ ((fun p => statementFromAdvisoryContent p.2 p.1 purlsWolfi)
              <$> advisoryPairs
                    (build.Advisories_ (scenarioB "not_affected" 5%Z))).
Proof.
  split; [intros; reflexivity|].
  split; [intros; apply merge_sort_Permutation|].
  apply (statementsFromConfiguration_from_maps rangeListed sortByVulnerability).
  - intros; reflexivity.
  - intros; apply merge_sort_Permutation.
Defined.

Lemma statementsFromConfiguration_nothing_dropped_witness :
  (forall v entries e,
     build.Advisories_ (scenarioB "affected" 5%Z) !! v = Some entries ->
     e ∈ entries -> build.Status e <> vex.StatusNotAffected)
  /\ statementsFromConfiguration rangeListed sortByVulnerability
       (scenarioB "affected" 5%Z) 9%Z purlsWolfi
     ≡ₚ statementsFromSecfixes rangeListed
          (build.Secfixes_ (scenarioB "affected" 5%Z)) purlsWolfi
        ++ statementsFromAdvisories rangeListed
             (build.Advisories_ (scenarioB "affected" 5%Z)) purlsWolfi.
Proof.
  assert (forall v entries e,
            build.Advisories_ (scenarioB "affected" 5%Z) !! v = Some entries ->
            e ∈ entries -> build.Status e <> vex.StatusNotAffected) as Hnone.
  { intros v entries e Hm He. simpl in Hm.
    apply lookup_singleton_Some in Hm as [_ <-].
    apply list_elem_of_singleton in He as ->. simpl. discriminate. }
  split; [exact Hnone|].
  apply (statementsFromConfiguration_nothing_dropped rangeListed
           sortByVulnerability).
  - intros; reflexivity.
  - intros; apply merge_sort_Permutation.
  - exact Hnone.
Defined.

Lemma statementsFromConfiguration_timestamp_witness :
  (forall stmts ts, sortByVulnerability stmts ts ≡ₚ stmts)
  /\ statementsFromConfiguration rangeListed sortByVulnerability
       (scenarioB "affected" 5%Z) 1%Z purlsWolfi
     ≡ₚ statementsFromConfiguration rangeListed sortByVulnerability
          (scenarioB "affected" 5%Z) 9%Z purlsWolfi.
Proof.
  split; [intros; apply merge_sort_Permutation|].
  apply (statementsFromConfiguration_timestamp rangeListed sortByVulnerability).
  intros; apply merge_sort_Permutation.
Defined.

Lemma statementsFromConfiguration_nil_witness :
  (forall (V : Type) (m : gmap string V), rangeListed V m ≡ₚ map_to_list m)
  /\ (forall stmts ts, sortByVulnerability stmts ts ≡ₚ stmts)
  /\ (statementsFromConfiguration rangeListed sortByVulnerability
         nameless 9%Z purlsWolfi = []
       <-> secfixesPairs (build.Secfixes_ nameless) = []
           /\ advisoryPairs (build.Advisories_ nameless) = []).
Proof.
  split; [intros; reflexivity|].
  split; [intros; apply merge_sort_Permutation|].
  apply (statementsFromConfiguration_nil rangeListed sortByVulnerability).
  - intros; reflexivity.
  - intros; apply merge_sort_Permutation.
Defined.

Lemma statementsFromConfiguration_keeps_duplicates_witness :
  2 <= length
         (filter
            (fun s =>
               s = {| vex.Vulnerability := "CVE-2";
                      vex.Status := vex.StatusFixed;
                      vex.Justification := ""; vex.ActionStatement := "";
                      vex.ImpactStatement := ""; vex.Products := purlsWolfi;
                      vex.Timestamp := None |})
            (statementsFromConfiguration rangeListed sortByVulnerability
               scenarioDup 9%Z purlsWolfi)).
Proof.
  apply (statementsFromConfiguration_keeps_duplicates rangeListed
           sortByVulnerability)
    with (ver1 := "1.0") (ver2 := "1.2") (vs1 := ["CVE-2"]) (vs2 := ["CVE-2"]).
  - intros; reflexivity.
  - intros; apply merge_sort_Permutation.
  - vm_compute. reflexivity.
  - by left.
  - vm_compute. reflexivity.
  - by left.
  - discriminate.
  - discriminate.
  - discriminate.
  - vm_compute. discriminate.
Defined.

Lemma extractSBOMPurls_only_purl_refs_witness :
  purlRefs sbomParsed = purlRefs sbomFlat
  /\ extractSBOMPurls parseApkPurl wolfi sbomParsed
     = extractSBOMPurls parseApkPurl wolfi sbomFlat.
Proof.
  split; [vm_compute; reflexivity|].
  apply (extractSBOMPurls_only_purl_refs parseApkPurl).
  vm_compute. reflexivity.
Defined.

Lemma extractSBOMPurls_first_error_witness :
  extractSBOMPurls parseApkPurl wolfi sbomMalformed
  = (None,
     Some (Errorf "parsing purl: not a purl"
             (ExternalError "purl is missing type or name"))).
Proof.
  apply (extractSBOMPurls_first_error parseApkPurl wolfi sbomMalformed
           [spdx.mkExternalRef "PACKAGE_MANAGER" "pkg:apk/wolfi/foo" "purl"]
           []
           (spdx.mkExternalRef "PACKAGE_MANAGER" "not a purl" "purl")).
  - vm_compute. reflexivity.
  - intros r Hr. apply list_elem_of_singleton in Hr as ->. reflexivity.
  - reflexivity.
Defined.

Lemma extractSBOMPurls_result_witness :
  extractSBOMPurls parseApkPurl wolfi sbomParsed
  = (Some [ purl.mkPackageURL "apk" "wolfi" "foo" "" "";
            purl.mkPackageURL "apk" "wolfi" "bar" "" "" ],
     None)
  /\ Forall (fun p => purl.Namespace p = Distro wolfi)
        [ purl.mkPackageURL "apk" "wolfi" "foo" "" "";
          purl.mkPackageURL "apk" "wolfi" "bar" "" "" ].
Proof.
  assert (extractSBOMPurls parseApkPurl wolfi sbomParsed
          = (Some [ purl.mkPackageURL "apk" "wolfi" "foo" "" "";
                    purl.mkPackageURL "apk" "wolfi" "bar" "" "" ],
             None)) as Hres by (vm_compute; reflexivity).
  split; [exact Hres|].
  apply (extractSBOMPurls_result parseApkPurl wolfi sbomParsed _ None Hres).
Defined.


Lemma generateDocumentID_first_error_witness :
  (marshalNamed nameless).2 = Some (ExternalError "yaml: missing name")
  /\ generateDocumentID marshalNamed [scenarioA; nameless; scenarioDup]
     = (EmptyString,
        Some (Errorf "marshaling melange configuration"
                (ExternalError "yaml: missing name"))).
Proof.
  split; [reflexivity|].
  apply (generateDocumentID_first_error marshalNamed [scenarioA] [scenarioDup]
           nameless).
  - intros c Hc. apply list_elem_of_singleton in Hc as ->. reflexivity.
  - reflexivity.
Defined.

Lemma subdocuments_products_witness :
  (forall stmts ts, sortByVulnerability stmts ts ≡ₚ stmts)
  /\ (forall doc s,
        subdocuments rangeListed sortByVulnerability packageURL tick 0 wolfi
          [scenarioA; scenarioDup] [] !! 1 = Some doc ->
        s ∈ vex.doc_Statements doc ->
        vex.Products s = ["pkg:apk/wolfi/libbar"]).
Proof.
  split; [intros; apply merge_sort_Permutation|].
  intros doc s Hdoc Hs.
  apply (subdocuments_products rangeListed sortByVulnerability packageURL
           ltac:(intros; apply merge_sort_Permutation)
           tick wolfi [scenarioA; scenarioDup] 1 scenarioDup doc s);
    [reflexivity|exact Hdoc|exact Hs].
Defined.

Lemma FromPackageConfiguration_serialization_error_witness :
  FromPackageConfiguration rangeListed sortByVulnerability marshalNamed
    packageURL mergeNonEmpty tick wolfi [scenarioA; nameless; scenarioDup]
  = (None,
     Some (Errorf "generating doc ID"
             (Errorf "marshaling melange configuration"
                (ExternalError "yaml: missing name")))).
Proof.
  apply (FromPackageConfiguration_serialization_error rangeListed
           sortByVulnerability marshalNamed packageURL mergeNonEmpty tick wolfi
           [scenarioA] [scenarioDup] nameless).
  - intros c Hc. apply list_elem_of_singleton in Hc as ->. reflexivity.
  - reflexivity.
Defined.

Lemma FromPackageConfiguration_merge_witness :
  (forall c, c ∈ @nil build.Configuration -> (marshalNamed c).2 = None)
  /\ FromPackageConfiguration rangeListed sortByVulnerability marshalNamed
       packageURL mergeNonEmpty tick wolfi []
     = (None,
        Some (Errorf "merging vex documents"
                (ExternalError "at least two documents are required"))).
Proof.
  split; [intros c Hc; by apply elem_of_nil in Hc|].
  apply (FromPackageConfiguration_merge rangeListed sortByVulnerability
           marshalNamed packageURL mergeNonEmpty tick wolfi []).
  intros c Hc. by apply elem_of_nil in Hc.
Defined.

Lemma generateDocumentID_format_witness :
  (generateDocumentID marshalNamed [scenarioA; scenarioDup]).2 = None
  /\ exists h : string,
       (generateDocumentID marshalNamed [scenarioA; scenarioDup]).1
       = String.append "vex-" h
       /\ String.length h = 64
       /\ Forall (fun c => lower_hex c = true) (list_ascii_of_string h).
Proof.
  split; [vm_compute; reflexivity|].
  apply (proj1 (generateDocumentID_format marshalNamed
                  [scenarioA; scenarioDup])).
  vm_compute. reflexivity.
Defined.

Lemma subdocuments_one_per_configuration_witness :
  length (subdocuments rangeListed sortByVulnerability packageURL tick 0 wolfi
            [scenarioA; scenarioDup] [])
  = 2.
Proof.
  apply (proj1 (subdocuments_one_per_configuration rangeListed
                  sortByVulnerability packageURL tick wolfi
                  [scenarioA; scenarioDup])).
Defined.

Lemma parseSBOM_all_or_nothing_witness :
  (readOneFile "missing.json").2
  = Some (ExternalError "no such file or directory")
  /\ parseSBOM readOneFile unmarshalEmptyObject "missing.json"
     = (None,
        Some (Errorf "opening SBOM file"
                (ExternalError "no such file or directory"))).
Proof.
  split; [reflexivity|].
  apply (parseSBOM_all_or_nothing readOneFile unmarshalEmptyObject
           "missing.json").
  reflexivity.
Defined.
